(** * TorchLeet: scaled dot-product attention and sinusoidal positional
      embedding

    A shallow embedding of the two numeric kernels of the repository:

    - [scaled_dot_product_attention] of
      [llm/Implement-Attention-from-Scratch/attention-q4.ipynb];
    - [SinusoidalPositionalEmbedding] ([__init__] and [forward]) of
      [llm/Sinusoidal-Positional-Embedding/sinusoidal-q7.ipynb].

    Modelling choices.

    - Scalars are the type [num]: a finite number, or one of the three IEEE
      special values [+inf], [-inf], [NaN].  The special values follow the
      IEEE rules, so that [0/0], [inf - inf] and the softmax of a fully
      masked row are [NaN] as they are in PyTorch, and the conversion of an
      integer to float32 ([float32_of_nat]) rounds as float32 does.  The
      arithmetic on finite numbers is idealised: [num_add], [num_mul],
      [num_div], [num_sqrt], [num_exp], [num_sin], [num_cos] return the
      real result, without the rounding and the overflow of float32.  The
      theorems are therefore stated on these operations themselves (which
      operation is applied to which entries), on special values, shapes,
      errors and storage; none states the numeric value of a float32
      computation, and what a theorem says of a finite score or weight it
      says under the hypothesis that the score is finite.
    - A tensor value is a shape together with an index function.  The tensor
      primitives of PyTorch used by the notebooks ([matmul], [transpose],
      [masked_fill], [softmax], broadcasting, slicing, slice assignment) are
      modelled with their shape checks; a failed check is a Python exception,
      here the [Err] case of [result].
    - The positional table is a registered buffer that is written in place
      and sliced into views, so it lives in a [heap] of storages and tensors
      over it are strided [view]s.  An allocation never runs out of memory
      here; the theorems on a constructed table take the construction that
      returned it as a hypothesis. *)

From Stdlib Require Import String.
From Stdlib Require Import Reals Lra Lia List Arith ZArith Bool.
Import ListNotations.

Set Implicit Arguments.

(* ================================================================== *)
(** * Part I: definitions *)
(* ================================================================== *)

(** ** Scalars *)

Inductive num : Type :=
| Fin (r : R)
| PosInf
| NegInf
| NaN.

Definition Rsgn (r : R) : comparison :=
  match total_order_T r 0 with
  | inleft (left _) => Lt
  | inleft (right _) => Eq
  | inright _ => Gt
  end.

Definition num_opp (x : num) : num :=
  match x with
  | Fin r => Fin (- r)
  | PosInf => NegInf
  | NegInf => PosInf
  | NaN => NaN
  end.

Definition num_add (x y : num) : num :=
  match x, y with
  | NaN, _ | _, NaN => NaN
  | PosInf, NegInf | NegInf, PosInf => NaN
  | PosInf, _ | _, PosInf => PosInf
  | NegInf, _ | _, NegInf => NegInf
  | Fin a, Fin b => Fin (a + b)
  end.

Definition num_sub (x y : num) : num := num_add x (num_opp y).

(** Sign of a scalar, [None] for [NaN]. *)
Definition num_sgn (x : num) : option comparison :=
  match x with
  | Fin r => Some (Rsgn r)
  | PosInf => Some Gt
  | NegInf => Some Lt
  | NaN => None
  end.

Definition inf_of_sign (c : comparison) : num :=
  match c with
  | Gt => PosInf
  | Lt => NegInf
  | Eq => NaN
  end.

Definition sign_mul (c d : comparison) : comparison :=
  match c, d with
  | Eq, _ | _, Eq => Eq
  | Gt, Gt | Lt, Lt => Gt
  | Gt, Lt | Lt, Gt => Lt
  end.

Definition num_mul (x y : num) : num :=
  match x, y with
  | Fin a, Fin b => Fin (a * b)
  | _, _ =>
      match num_sgn x, num_sgn y with
      | Some c, Some d => inf_of_sign (sign_mul c d)
      | _, _ => NaN
      end
  end.

(** Division; a zero divisor is taken as [+0]. *)
Definition num_div (x y : num) : num :=
  match x, y with
  | NaN, _ | _, NaN => NaN
  | Fin a, Fin b =>
      match Rsgn b with
      | Eq => inf_of_sign (Rsgn a)
      | _ => Fin (a / b)
      end
  | Fin _, _ => Fin 0
  | _, Fin b =>
      match Rsgn b with
      | Lt => num_opp x
      | _ => x
      end
  | _, _ => NaN
  end.

Definition num_sqrt (x : num) : num :=
  match x with
  | Fin r => match Rsgn r with Lt => NaN | _ => Fin (sqrt r) end
  | PosInf => PosInf
  | _ => NaN
  end.

Definition num_exp (x : num) : num :=
  match x with
  | Fin r => Fin (exp r)
  | PosInf => PosInf
  | NegInf => Fin 0
  | NaN => NaN
  end.

Definition num_sin (x : num) : num :=
  match x with
  | Fin r => Fin (sin r)
  | _ => NaN
  end.

Definition num_cos (x : num) : num :=
  match x with
  | Fin r => Fin (cos r)
  | _ => NaN
  end.

(** Maximum as used by the softmax reduction: [NaN] propagates. *)
Definition num_max (x y : num) : num :=
  match x, y with
  | NaN, _ | _, NaN => NaN
  | PosInf, _ | _, PosInf => PosInf
  | NegInf, z | z, NegInf => z
  | Fin a, Fin b => Fin (Rmax a b)
  end.

(** [x == 0] on a scalar. *)
Definition num_eq0 (x : num) : bool :=
  match x with
  | Fin r => match Rsgn r with Eq => true | _ => false end
  | _ => false
  end.

(** The integer [z >= 0] rounded to a float32: exact below [2^24],
    otherwise rounded to 24 significant bits, to nearest with ties to
    even; [None] is the overflow to [+inf], from [2^128] on. *)
Definition round_float32 (z : Z) : option Z :=
  if (z <? 2 ^ 24)%Z then Some z
  else
    let ulp := (2 ^ (Z.log2 z - 23))%Z in
    let q := (z / ulp)%Z in
    let r := (z mod ulp)%Z in
    let half := (ulp / 2)%Z in
    let q' :=
      if (r <? half)%Z then q
      else if (half <? r)%Z then (q + 1)%Z
      else if Z.even q then q else (q + 1)%Z in
    let v := (q' * ulp)%Z in
    if (2 ^ 128 <=? v)%Z then None else Some v.

(** A non-negative Python or int64 integer converted to float32
    ([dtype=torch.float32], [.float()]). *)
Definition float32_of_nat (n : nat) : num :=
  match round_float32 (Z.of_nat n) with
  | Some v => Fin (IZR v)
  | None => PosInf
  end.

Fixpoint Rsum (n : nat) (f : nat -> R) : R :=
  match n with
  | O => 0%R
  | S n' => (Rsum n' f + f n')%R
  end.

Fixpoint num_sum (n : nat) (f : nat -> num) : num :=
  match n with
  | O => Fin 0
  | S n' => num_add (num_sum n' f) (f n')
  end.

Fixpoint num_max_row (n : nat) (f : nat -> num) : num :=
  match n with
  | O => NegInf
  | S n' => num_max (num_max_row n' f) (f n')
  end.

(** Softmax of the row [x 0 .. x (n-1)], entry [j], the way the library
    computes it: subtract the row maximum, exponentiate, normalise. *)
Definition softmax_row (n : nat) (x : nat -> num) (j : nat) : num :=
  let m := num_max_row n x in
  let e := fun i => num_exp (num_sub (x i) m) in
  num_div (e j) (num_sum n e).

(** ** Exceptions *)

Inductive exn : Type :=
| RuntimeError (msg : string)
| IndexError (msg : string)
| ZeroDivisionError.

Inductive result (A : Type) : Type :=
| Ok (a : A)
| Err (e : exn).

Arguments Ok {A} a.
Arguments Err {A} e.

Definition bind {A B : Type} (r : result A) (f : A -> result B) : result B :=
  match r with
  | Ok a => f a
  | Err e => Err e
  end.

Notation "'let*' x ':=' e 'in' k" := (bind e (fun x => k))
  (at level 10, x name, e at level 100, k at level 200).

Definition is_ok {A : Type} (r : result A) : bool :=
  match r with Ok _ => true | Err _ => false end.

(** ** Shapes, indices and broadcasting *)

Fixpoint split_last {A : Type} (l : list A) : option (list A * A) :=
  match l with
  | [] => None
  | x :: l' =>
      match split_last l' with
      | None => Some ([], x)
      | Some (p, z) => Some (x :: p, z)
      end
  end.

Definition split_last2 {A : Type} (l : list A) : option (list A * A * A) :=
  match split_last l with
  | Some (p, z) =>
      match split_last p with
      | Some (p', y) => Some (p', y, z)
      | None => None
      end
  | None => None
  end.

(** Broadcasting of two shapes given innermost dimension first. *)
Fixpoint bc_rev (a b : list nat) : option (list nat) :=
  match a, b with
  | [], _ => Some b
  | _, [] => Some a
  | x :: a', y :: b' =>
      if x =? y then option_map (cons x) (bc_rev a' b')
      else if x =? 1 then option_map (cons y) (bc_rev a' b')
      else if y =? 1 then option_map (cons x) (bc_rev a' b')
      else None
  end.

(** [torch.broadcast_shapes]: align at the trailing dimension; two sizes are
    compatible when they are equal or one of them is 1. *)
Definition broadcast_shapes (a b : list nat) : option (list nat) :=
  option_map (@rev nat) (bc_rev (rev a) (rev b)).

(** One-directional version, innermost dimension first: [s] can be expanded
    to [t]. *)
Fixpoint expandable_rev (s t : list nat) : bool :=
  match s, t with
  | [], _ => true
  | _ :: _, [] => false
  | x :: s', y :: t' => ((x =? y) || (x =? 1)) && expandable_rev s' t'
  end.

(** [s] is broadcastable to [t] ([Tensor.expand]). *)
Definition expandable_to (s t : list nat) : bool :=
  expandable_rev (rev s) (rev t).

(** Index into a tensor of shape [s] that an index [idx] of the broadcast
    result reads: the trailing [length s] components, with 0 on the
    dimensions of size 1. *)
Definition expand_index (s idx : list nat) : list nat :=
  map (fun di => if fst di =? 1 then 0 else snd di)
      (combine s (skipn (length idx - length s) idx)).

(** [idx] is an index of a tensor of shape [s]. *)
Definition valid_index (s idx : list nat) : Prop := Forall2 lt idx s.

(** ** Tensor values *)

Record tensor (A : Type) : Type := mkTensor {
  shape : list nat;
  data : list nat -> A
}.

Definition tmap {A B : Type} (f : A -> B) (t : tensor A) : tensor B :=
  mkTensor (shape t) (fun idx => f (data t idx)).

(** [t.transpose(-2, -1)] *)
Definition swap_last2 {A : Type} (l : list A) : list A :=
  match split_last2 l with
  | Some (p, y, z) => p ++ [z; y]
  | None => l
  end.

Definition transpose_last2 {A : Type} (t : tensor A) : result (tensor A) :=
  match split_last2 (shape t) with
  | Some (b, n, m) =>
      Ok (mkTensor (b ++ [m; n]) (fun idx => data t (swap_last2 idx)))
  | None => Err (IndexError "transpose: dimension out of range")
  end.

(** [t.unsqueeze(dim)] on values. *)
Definition unsqueeze {A : Type} (dim : nat) (t : tensor A) : tensor A :=
  mkTensor (firstn dim (shape t) ++ 1 :: skipn dim (shape t))
           (fun idx => data t (firstn dim idx ++ skipn (S dim) idx)).

(** Removal of the last, and of the second to last, dimension (of size 1). *)
Definition squeeze_last {A : Type} (t : tensor A) : tensor A :=
  mkTensor (removelast (shape t)) (fun idx => data t (idx ++ [0])).

Definition squeeze_last2 {A : Type} (t : tensor A) : tensor A :=
  mkTensor
    (match split_last2 (shape t) with
     | Some (b, _, p) => b ++ [p]
     | None => shape t
     end)
    (fun idx =>
       match split_last idx with
       | Some (bi, j) => data t (bi ++ [0; j])
       | None => data t idx
       end).

(** Batched matrix product of [a : ba ++ [n; m]] and [b : bb ++ [m; p]]. *)
Definition bmm (ba bb B : list nat) (n m p : nat) (a b : tensor num)
  : tensor num :=
  mkTensor (B ++ [n; p])
    (fun idx =>
       match split_last2 idx with
       | Some (bi, i, j) =>
           num_sum m (fun l =>
             num_mul (data a (expand_index ba bi ++ [i; l]))
                     (data b (expand_index bb bi ++ [l; j])))
       | None => NaN
       end).

(** [torch.matmul]: a 1-D first argument is a row vector, a 1-D second
    argument a column vector, the added dimension is removed afterwards;
    the matrix dimensions must agree and the batch dimensions broadcast. *)
Definition matmul (a b : tensor num) : result (tensor num) :=
  match shape a, shape b with
  | [], _ | _, [] =>
      Err (RuntimeError "matmul: both arguments need to be at least 1D")
  | _, _ =>
      let a1 := length (shape a) =? 1 in
      let b1 := length (shape b) =? 1 in
      let a' := if a1 then unsqueeze 0 a else a in
      let b' := if b1 then unsqueeze 1 b else b in
      match split_last2 (shape a'), split_last2 (shape b') with
      | Some (ba, n, m), Some (bb, m', p) =>
          if m =? m' then
            match broadcast_shapes ba bb with
            | Some B =>
                let r := bmm ba bb B n m p a' b' in
                let r := if a1 then squeeze_last2 r else r in
                let r := if b1 then squeeze_last r else r in
                Ok r
            | None =>
                Err (RuntimeError "matmul: batch dimensions do not broadcast")
            end
          else Err (RuntimeError "matmul: shapes cannot be multiplied")
      | _, _ =>
          Err (RuntimeError "matmul: both arguments need to be at least 1D")
      end
  end.

(** [t / s] for a 0-d tensor [s]. *)
Definition tdiv_scalar (t : tensor num) (s : num) : tensor num :=
  tmap (fun x => num_div x s) t.

(** [mask == 0] *)
Definition teq0 (mask : tensor num) : tensor bool := tmap num_eq0 mask.

(** [t.masked_fill(m, value)], out of place: both [t] and [m] are expanded
    to their common broadcast shape. *)
Definition masked_fill (t : tensor num) (m : tensor bool) (value : num)
  : result (tensor num) :=
  match broadcast_shapes (shape m) (shape t) with
  | Some s =>
      Ok (mkTensor s
            (fun idx =>
               if data m (expand_index (shape m) idx) then value
               else data t (expand_index (shape t) idx)))
  | None => Err (RuntimeError "masked_fill: shapes do not broadcast")
  end.

(** [F.softmax(t, dim=-1)] *)
Definition softmax_last (t : tensor num) : tensor num :=
  match split_last (shape t) with
  | Some (_, n) =>
      mkTensor (shape t)
        (fun idx =>
           match split_last idx with
           | Some (pre, j) => softmax_row n (fun j' => data t (pre ++ [j'])) j
           | None => NaN
           end)
  | None =>
      mkTensor (shape t) (fun idx => softmax_row 1 (fun _ => data t idx) 0)
  end.

(** ** attention-q4.ipynb *)

(** [q.shape[-1]] *)
Definition shape_last {A : Type} (t : tensor A) : result nat :=
  match split_last (shape t) with
  | Some (_, d) => Ok d
  | None => Err (IndexError "tuple index out of range")
  end.

(** The local variable [scores] after line 102; the scale is the square
    root of [torch.tensor(d_k, dtype=torch.float32)]. *)
Definition attention_scores (q k : tensor num) : result (tensor num) :=
  let* d_k := shape_last q in
  let* kt := transpose_last2 k in
  let* qk := matmul q kt in
  Ok (tdiv_scalar qk (num_sqrt (float32_of_nat d_k))).

(** The local variable [scores] after lines 105-106. *)
Definition apply_mask (scores : tensor num) (mask : option (tensor num))
  : result (tensor num) :=
  match mask with
  | Some m => masked_fill scores (teq0 m) NegInf
  | None => Ok scores
  end.

Definition scaled_dot_product_attention
    (q k v : tensor num) (mask : option (tensor num))
  : result (tensor num * tensor num) :=
  let* scores := attention_scores q k in
  let* scores := apply_mask scores mask in
  let attention_weights := softmax_last scores in
  let* output := matmul attention_weights v in
  Ok (output, attention_weights).

(** ** Storages and views *)

(** The heap of tensor storages: [cells h sid off] is the scalar at offset
    [off] of storage [sid]. *)
Record heap : Type := mkHeap {
  next_id : nat;
  cells : nat -> nat -> num
}.

Definition empty_heap : heap := mkHeap 0 (fun _ _ => Fin 0).

(** A strided view of a storage, as a [torch.Tensor] is. *)
Record view : Type := mkView {
  v_storage : nat;
  v_offset : nat;
  v_shape : list nat;
  v_strides : list nat
}.

Fixpoint contiguous_strides (s : list nat) : list nat :=
  match s with
  | [] => []
  | _ :: s' => fold_right Nat.mul 1 s' :: contiguous_strides s'
  end.

Fixpoint dot (idx strides : list nat) : nat :=
  match idx, strides with
  | i :: idx', st :: strides' => i * st + dot idx' strides'
  | _, _ => 0
  end.

Definition offset_of (v : view) (idx : list nat) : nat :=
  v_offset v + dot idx (v_strides v).

(** The value a view denotes in a heap. *)
Definition read_view (h : heap) (v : view) : tensor num :=
  mkTensor (v_shape v) (fun idx => cells h (v_storage v) (offset_of v idx)).

(** All indices of a shape, in row-major order. *)
Fixpoint indices (s : list nat) : list (list nat) :=
  match s with
  | [] => [[]]
  | n :: s' => flat_map (fun i => map (cons i) (indices s')) (seq 0 n)
  end.

(** Elementwise write of [f idx] at every index [idx] of the view. *)
Definition write_view (h : heap) (dst : view) (f : list nat -> num) : heap :=
  mkHeap (next_id h)
    (fun sid off =>
       if sid =? v_storage dst then
         match find (fun idx => offset_of dst idx =? off)
                    (indices (v_shape dst)) with
         | Some idx => f idx
         | None => cells h sid off
         end
       else cells h sid off).

(** [torch.zeros(sizes)]: a fresh storage; a negative size is refused. *)
Definition zeros (sizes : list Z) (h : heap) : result (view * heap) :=
  if forallb (fun z => (0 <=? z)%Z) sizes then
    let s := map Z.to_nat sizes in
    Ok (mkView (next_id h) 0 s (contiguous_strides s),
        mkHeap (S (next_id h))
          (fun sid off =>
             if sid =? next_id h then Fin 0 else cells h sid off))
  else Err (RuntimeError "zeros: negative dimension").

Fixpoint set_nth {A : Type} (n : nat) (x : A) (l : list A) : list A :=
  match l, n with
  | [], _ => []
  | _ :: l', O => x :: l'
  | y :: l', S n' => y :: set_nth n' x l'
  end.

(** [v[..., start:stop:step, ...]] on dimension [dim], for non-negative
    bounds and a positive step; [stop = None] is an omitted bound.  Bounds
    are clamped to the size of the dimension, as Python slicing does. *)
Definition slice_dim (v : view) (dim start : nat) (stop : option nat)
    (step : nat) : view :=
  let size := nth dim (v_shape v) 0 in
  let stride := nth dim (v_strides v) 0 in
  let start' := Nat.min start size in
  let stop' := match stop with Some e => Nat.min e size | None => size end in
  let len := (stop' - start' + step - 1) / step in
  mkView (v_storage v) (v_offset v + start' * stride)
         (set_nth dim len (v_shape v))
         (set_nth dim (stride * step) (v_strides v)).

(** [v.unsqueeze(dim)] on views. *)
Definition view_unsqueeze (dim : nat) (v : view) : view :=
  let st :=
    if dim <? List.length (v_shape v)
    then nth dim (v_shape v) 0 * nth dim (v_strides v) 0
    else 1 in
  mkView (v_storage v) (v_offset v)
         (firstn dim (v_shape v) ++ 1 :: skipn dim (v_shape v))
         (firstn dim (v_strides v) ++ st :: skipn dim (v_strides v)).

Fixpoint leading_ones (s : list nat) : nat :=
  match s with
  | 1 :: s' => S (leading_ones s')
  | _ => 0
  end.

(** The source of a slice assignment with its leading dimensions of size 1
    removed. *)
Definition strip_leading_ones {A : Type} (t : tensor A) : tensor A :=
  let k := leading_ones (shape t) in
  mkTensor (skipn k (shape t)) (fun idx => data t (repeat 0 k ++ idx)).

Fixpoint list_nat_eqb (a b : list nat) : bool :=
  match a, b with
  | [], [] => true
  | x :: a', y :: b' => (x =? y) && list_nat_eqb a' b'
  | _, _ => false
  end.

(** [dst[...] = src] once [dst] is the indexed view: same shapes copy,
    a 0-d source fills, otherwise the source is expanded to the shape of the
    destination, which fails when it cannot be. *)
Definition setitem (dst : view) (src : tensor num) (h : heap)
  : result heap :=
  if list_nat_eqb (v_shape dst) (shape src) then
    Ok (write_view h dst (data src))
  else if List.length (shape src) =? 0 then
    Ok (write_view h dst (fun _ => data src []))
  else
    let src' := strip_leading_ones src in
    if expandable_to (shape src') (v_shape dst) then
      Ok (write_view h dst
            (fun idx => data src' (expand_index (shape src') idx)))
    else Err (RuntimeError "setitem: expanded size must match existing size").

(** ** Value-level helpers of sinusoidal-q7.ipynb *)

(** [torch.arange(start, stop, step)] as float32, for non-negative bounds
    and a positive step. *)
Definition arange (start stop step : nat) : tensor num :=
  mkTensor [(stop - start + step - 1) / step]
           (fun idx => float32_of_nat (start + nth 0 idx 0 * step)).

(** Elementwise product with broadcasting. *)
Definition tmul (a b : tensor num) : result (tensor num) :=
  match broadcast_shapes (shape a) (shape b) with
  | Some s =>
      Ok (mkTensor s
            (fun idx =>
               num_mul (data a (expand_index (shape a) idx))
                       (data b (expand_index (shape b) idx))))
  | None => Err (RuntimeError "mul: shapes do not broadcast")
  end.

(** Python's [x / n] for a float [x] and an int [n]. *)
Definition py_div (x : R) (n : Z) : result R :=
  if (n =? 0)%Z then Err ZeroDivisionError else Ok (x / IZR n)%R.

(** ** sinusoidal-q7.ipynb *)

(** The module instance: its registered buffer [pe]. *)
Record SinusoidalPositionalEmbedding : Type := mkModule {
  pe : view
}.

(** [SinusoidalPositionalEmbedding.__init__] *)
Definition SinusoidalPositionalEmbedding_init (max_seq_len d_model : Z)
    (h : heap) : result (SinusoidalPositionalEmbedding * heap) :=
  let* ph := zeros [max_seq_len; d_model] h in
  let pe := fst ph in
  let h := snd ph in
  let position := unsqueeze 1 (arange 0 (Z.to_nat max_seq_len) 1) in
  let* c := py_div (- ln 10000) d_model in
  let div_term :=
    tmap num_exp
      (tmap (fun x => num_mul x (Fin c)) (arange 0 (Z.to_nat d_model) 2)) in
  let* angles := tmul position div_term in
  let* h := setitem (slice_dim pe 1 0 None 2) (tmap num_sin angles) h in
  let* angles := tmul position div_term in
  let* h := setitem (slice_dim pe 1 1 None 2) (tmap num_cos angles) h in
  Ok (mkModule pe, h).

(** [x.shape[i]] *)
Definition shape_at {A : Type} (t : tensor A) (i : nat) : result nat :=
  match nth_error (shape t) i with
  | Some n => Ok n
  | None => Err (IndexError "tuple index out of range")
  end.

(** [SinusoidalPositionalEmbedding.forward]: the result is a view. *)
Definition forward {A : Type} (self : SinusoidalPositionalEmbedding)
    (x : tensor A) (h : heap) : result (view * heap) :=
  let* n := shape_at x 1 in
  Ok (view_unsqueeze 0
        (slice_dim (slice_dim (pe self) 0 0 (Some n) 1) 1 0 None 1),
      h).

(** ** Auxiliary notions of the statements *)

(** Exponential of a score, with a masked score ([-inf]) giving 0. *)
Definition ext_exp (x : num) : R :=
  match x with
  | Fin r => exp r
  | _ => 0%R
  end.

(** The mask entry that corresponds to the position [idx] of the scores. *)
Definition mask_at (m : tensor num) (idx : list nat) : num :=
  data m (expand_index (shape m) idx).

(** Whether the position [idx] of the scores is left unmasked. *)
Definition unmasked (mask : option (tensor num)) (idx : list nat) : bool :=
  match mask with
  | Some m => negb (num_eq0 (mask_at m idx))
  | None => true
  end.

(** A mask is admissible for scores of shape [s] when it is absent or its
    shape is broadcastable to [s]. *)
Definition mask_fits (mask : option (tensor num)) (s : list nat) : Prop :=
  match mask with
  | Some m => expandable_to (shape m) s = true
  | None => True
  end.

(** A Python scalar as a 0-d tensor. *)
Definition scalar (c : num) : tensor num := mkTensor [] (fun _ => c).

(** A tensor of the given shape filled with one value. *)
Definition full {A : Type} (s : list nat) (c : A) : tensor A :=
  mkTensor s (fun _ => c).

(** ** The contract of section 4.1, in the specification's words

    The five steps of the attention kernel entry by entry, written with
    the scalar operations of the tensor library. *)

Section AttentionContract.

Variables q k v : tensor num.
(** Batch shapes of [q], [k], [v], and the broadcast of the first two. *)
Variables bq bk bv bqk : list nat.
Variables seq_len_k d_k : nat.
Variable mask : option (tensor num).

(** Steps 1 and 2: entry [(i, j)] of batch [b] of [q k^T / sqrt d_k]. *)
Definition contract_score (b : list nat) (i j : nat) : num :=
  num_div
    (num_sum d_k (fun l =>
       num_mul (data q (expand_index bq b ++ [i; l]))
               (data k (expand_index bk b ++ [j; l]))))
    (num_sqrt (float32_of_nat d_k)).

(** Step 3: [-inf] where the mask entry is zero. *)
Definition contract_masked_score (b : list nat) (i j : nat) : num :=
  if unmasked mask (b ++ [i; j]) then contract_score b i j else NegInf.

(** Step 4: softmax along the key axis. *)
Definition contract_weight (b : list nat) (i j : nat) : num :=
  softmax_row seq_len_k (fun j' => contract_masked_score b i j') j.

(** Step 5: entry [(i, c)] of batch [b] of [weights v]. *)
Definition contract_output (b : list nat) (i c : nat) : num :=
  num_sum seq_len_k
    (fun j => num_mul (contract_weight (expand_index bqk b) i j)
                      (data v (expand_index bv b ++ [j; c]))).

End AttentionContract.

(** ** The table of section 4.2 *)

(** The frequency of the channel pair [i], in the specification's words. *)
Definition omega (d_model : Z) (i : nat) : R :=
  exp (- ln 10000 * (2 * INR i) / IZR d_model).

(** The angle of position [p] and channel pair [i] as the construction
    computes it: the float32 position times the frequency
    [exp ((2 i) * c)], with [c] the scalar [-math.log(10000.0) / d_model]. *)
Definition table_angle (c : R) (p i : nat) : num :=
  num_mul (float32_of_nat p)
          (num_exp (num_mul (float32_of_nat (2 * i)) (Fin c))).

(* ================================================================== *)
(** * Part II: properties *)
(* ================================================================== *)

Unset Implicit Arguments.

(** ** Lists, shapes and indices *)

Lemma split_last_app {A : Type} (p : list A) (z : A) :
  split_last (p ++ [z]) = Some (p, z).
Proof.
  induction p as [|x p IH]; simpl.
  - reflexivity.
  - rewrite IH. reflexivity.
Qed.

Lemma split_last2_app {A : Type} (p : list A) (y z : A) :
  split_last2 (p ++ [y; z]) = Some (p, y, z).
Proof.
  unfold split_last2.
  change (p ++ [y; z]) with (p ++ [y] ++ [z]).
  rewrite app_assoc, split_last_app, split_last_app. reflexivity.
Qed.

Lemma split_last_app2 {A : Type} (p : list A) (y z : A) :
  split_last (p ++ [y; z]) = Some (p ++ [y], z).
Proof.
  change (p ++ [y; z]) with (p ++ [y] ++ [z]).
  rewrite app_assoc. apply split_last_app.
Qed.

Lemma rank2_not_1 (b : list nat) (n m : nat) :
  (List.length (b ++ [n; m]) =? 1) = false.
Proof.
  rewrite length_app. simpl. apply Nat.eqb_neq. lia.
Qed.

Lemma bc_rev_refl (s : list nat) : bc_rev s s = Some s.
Proof.
  induction s as [|x s IH]; simpl.
  - reflexivity.
  - rewrite Nat.eqb_refl, IH. reflexivity.
Qed.

Lemma broadcast_shapes_refl (s : list nat) : broadcast_shapes s s = Some s.
Proof.
  unfold broadcast_shapes. rewrite bc_rev_refl. simpl.
  rewrite rev_involutive. reflexivity.
Qed.

Lemma expandable_rev_bc (s t : list nat) :
  expandable_rev s t = true -> bc_rev s t = Some t.
Proof.
  revert t. induction s as [|x s IH]; intros [|y t] H; simpl in *;
    try reflexivity; try discriminate.
  apply andb_prop in H. destruct H as [Hxy Hst].
  rewrite (IH _ Hst). simpl.
  destruct (x =? y) eqn:Exy.
  - apply Nat.eqb_eq in Exy. subst. reflexivity.
  - simpl in Hxy. rewrite Hxy. reflexivity.
Qed.

Lemma expandable_to_broadcast (s t : list nat) :
  expandable_to s t = true -> broadcast_shapes s t = Some t.
Proof.
  unfold expandable_to, broadcast_shapes. intros H.
  rewrite (expandable_rev_bc _ _ H). simpl.
  rewrite rev_involutive. reflexivity.
Qed.

Lemma valid_index_length (s idx : list nat) :
  valid_index s idx -> List.length idx = List.length s.
Proof.
  unfold valid_index. intros H. induction H; simpl; congruence.
Qed.

Lemma expand_index_valid (s idx : list nat) :
  valid_index s idx -> expand_index s idx = idx.
Proof.
  intros H. unfold expand_index.
  rewrite (valid_index_length _ _ H), Nat.sub_diag. simpl.
  unfold valid_index in H.
  induction H as [|i d idx s Hlt H IH]; simpl.
  - reflexivity.
  - rewrite IH. destruct (d =? 1) eqn:E.
    + apply Nat.eqb_eq in E. f_equal. lia.
    + reflexivity.
Qed.

Lemma valid_index_app (s1 s2 i1 i2 : list nat) :
  valid_index s1 i1 -> valid_index s2 i2 ->
  valid_index (s1 ++ s2) (i1 ++ i2).
Proof. unfold valid_index. apply Forall2_app. Qed.

Lemma valid_row_index (bs b : list nat) (n m i j : nat) :
  valid_index bs b -> i < n -> j < m ->
  valid_index (bs ++ [n; m]) (b ++ [i; j]).
Proof.
  intros Hb Hi Hj. apply valid_index_app; [assumption |].
  repeat constructor; assumption.
Qed.

(** ** Broadcast indices *)

Lemma Forall2_rev_lt (l l' : list nat) :
  Forall2 lt l l' -> Forall2 lt (rev l) (rev l').
Proof.
  induction 1 as [|x y l l' Hxy H IH]; simpl.
  - constructor.
  - apply Forall2_app; [assumption | repeat constructor; assumption].
Qed.

Lemma combine_app_same_length {A B : Type} (l1 l2 : list A)
    (r1 r2 : list B) :
  List.length l1 = List.length r1 ->
  combine (l1 ++ l2) (r1 ++ r2) = combine l1 r1 ++ combine l2 r2.
Proof.
  revert r1. induction l1 as [|x l1 IH]; intros [|y r1] E; simpl in *;
    try discriminate; try reflexivity.
  f_equal. apply IH. lia.
Qed.

Lemma rev_combine {A B : Type} (l : list A) (r : list B) :
  List.length l = List.length r ->
  rev (combine l r) = combine (rev l) (rev r).
Proof.
  revert r. induction l as [|x l IH]; intros [|y r] E; simpl in *;
    try discriminate; try reflexivity.
  rewrite combine_app_same_length by (rewrite !length_rev; lia).
  rewrite IH by lia. reflexivity.
Qed.

(** Seen from the innermost dimension, [expand_index] pairs each size of
    the operand with the component of the index at the same position. *)
Lemma rev_expand_index (s idx : list nat) :
  List.length s <= List.length idx ->
  rev (expand_index s idx)
  = map (fun di => if fst di =? 1 then 0 else snd di)
        (combine (rev s) (rev idx)).
Proof.
  intros Hle. unfold expand_index.
  rewrite <- map_rev. f_equal.
  rewrite rev_combine by (rewrite length_skipn; lia).
  rewrite <- firstn_rev.
  rewrite (combine_firstn_l (rev s) (rev idx)), length_rev. reflexivity.
Qed.

Lemma bc_rev_length_l (a b c : list nat) :
  bc_rev a b = Some c -> List.length a <= List.length c.
Proof.
  revert b c. induction a as [|x a IH]; intros b c H; simpl.
  - lia.
  - destruct b as [|y b]; simpl in H.
    + inversion H. simpl. lia.
    + destruct (bc_rev a b) as [c' |] eqn:E.
      * specialize (IH _ _ E).
        destruct (x =? y); [| destruct (x =? 1); [| destruct (y =? 1)]];
          simpl in H; inversion H; simpl; lia.
      * destruct (x =? y); [| destruct (x =? 1); [| destruct (y =? 1)]];
          simpl in H; discriminate.
Qed.

Lemma bc_rev_expand_valid (a b c idx : list nat) :
  bc_rev a b = Some c ->
  Forall2 lt idx c ->
  Forall2 lt (map (fun di => if fst di =? 1 then 0 else snd di)
                  (combine a idx)) a.
Proof.
  revert b c idx. induction a as [|x a IH]; intros b c idx H Hv; simpl.
  - constructor.
  - assert (Hx : forall i z, i < z -> z = x \/ x = 1 ->
                 (if x =? 1 then 0 else i) < x).
    { intros i z Hi Hz. destruct (x =? 1) eqn:E.
      - apply Nat.eqb_eq in E. lia.
      - apply Nat.eqb_neq in E. lia. }
    destruct b as [|y b]; simpl in H.
    + inversion H; subst c.
      inversion Hv as [|i z idx' c' Hi Hrest]; subst. simpl.
      constructor; [apply (Hx i x); auto |].
      apply (IH [] a idx'); [destruct a; reflexivity | assumption].
    + destruct (bc_rev a b) as [c' |] eqn:E.
      2:{ destruct (x =? y); [| destruct (x =? 1); [| destruct (y =? 1)]];
            simpl in H; discriminate. }
      assert (Hc : exists z, c = z :: c' /\ (z = x \/ x = 1)).
      { destruct (x =? y) eqn:Exy.
        - simpl in H. inversion H. eauto.
        - destruct (x =? 1) eqn:E1.
          + simpl in H. inversion H. apply Nat.eqb_eq in E1. eauto.
          + destruct (y =? 1); simpl in H; [| discriminate].
            inversion H. eauto. }
      destruct Hc as [z [-> Hz]].
      inversion Hv as [|i z' idx' c'' Hi Hrest]; subst. simpl.
      constructor; [apply (Hx i z); assumption |].
      apply (IH b c' idx'); assumption.
Qed.

(** An index of the broadcast of two shapes reads a valid index of the
    first one. *)
Lemma expand_index_broadcast_valid (a b c idx : list nat) :
  broadcast_shapes a b = Some c ->
  valid_index c idx ->
  valid_index a (expand_index a idx).
Proof.
  unfold broadcast_shapes, valid_index. intros H Hv.
  destruct (bc_rev (rev a) (rev b)) as [rc |] eqn:E; [| discriminate].
  simpl in H. inversion H; subst c.
  assert (Hlen : List.length a <= List.length idx).
  { apply bc_rev_length_l in E.
    apply Forall2_length in Hv. rewrite !length_rev in *. lia. }
  apply Forall2_rev_lt in Hv. rewrite rev_involutive in Hv.
  pose proof (bc_rev_expand_valid _ _ _ _ E Hv) as Hr.
  rewrite <- (rev_expand_index a idx Hlen) in Hr.
  apply Forall2_rev_lt in Hr. rewrite !rev_involutive in Hr. exact Hr.
Qed.

(** ** Scalars *)

Lemma Rsgn_pos (r : R) : (0 < r)%R -> Rsgn r = Gt.
Proof.
  intros H. unfold Rsgn.
  destruct (total_order_T r 0) as [[H'|H']|H']; try reflexivity; lra.
Qed.

Lemma Rsgn_zero : Rsgn 0 = Eq.
Proof.
  unfold Rsgn.
  destruct (total_order_T 0 0) as [[H'|H']|H']; try reflexivity; lra.
Qed.

Lemma Rsgn_Eq (r : R) : Rsgn r = Eq -> r = 0%R.
Proof.
  unfold Rsgn.
  destruct (total_order_T r 0) as [[H'|H']|H']; intros H;
    try discriminate; assumption.
Qed.

Lemma Rsgn_neg (r : R) : (r < 0)%R -> Rsgn r = Lt.
Proof.
  intros H. unfold Rsgn.
  destruct (total_order_T r 0) as [[H'|H']|H']; try reflexivity; lra.
Qed.

Lemma float32_of_nat_0 : float32_of_nat 0 = Fin 0.
Proof. reflexivity. Qed.

(** Integers below [2^24] are float32 numbers. *)
Lemma float32_of_nat_small (n : nat) :
  (Z.of_nat n < 2 ^ 24)%Z -> float32_of_nat n = Fin (INR n).
Proof.
  intros H. unfold float32_of_nat, round_float32.
  rewrite (proj2 (Z.ltb_lt _ _) H), INR_IZR_INZ. reflexivity.
Qed.

Lemma float32_of_nat_cases (n : nat) :
  float32_of_nat n = PosInf \/ exists r, float32_of_nat n = Fin r.
Proof.
  unfold float32_of_nat. destruct (round_float32 _); eauto.
Qed.

(** The scale [sqrt d_k] is positive and finite for a key dimension that
    is a float32 number. *)
Lemma num_sqrt_float32_pos (n : nat) :
  0 < n -> (Z.of_nat n < 2 ^ 24)%Z ->
  exists r, (0 < r)%R /\ num_sqrt (float32_of_nat n) = Fin r.
Proof.
  intros Hn Hs. rewrite (float32_of_nat_small n Hs).
  assert (Hpos : (0 < INR n)%R) by (apply lt_0_INR; assumption).
  exists (sqrt (INR n)). split; [apply sqrt_lt_R0; assumption |].
  cbn [num_sqrt]. rewrite (Rsgn_pos _ Hpos). reflexivity.
Qed.

Lemma num_div_Fin_pos (a b : R) :
  (0 < b)%R -> num_div (Fin a) (Fin b) = Fin (a / b).
Proof.
  intros H. simpl. rewrite (Rsgn_pos _ H). reflexivity.
Qed.

Lemma num_sum_Fin (n : nat) (g : nat -> num) (f : nat -> R) :
  (forall l, l < n -> g l = Fin (f l)) ->
  num_sum n g = Fin (Rsum n f).
Proof.
  induction n as [|n IH]; intros H; simpl.
  - reflexivity.
  - rewrite IH by (intros; apply H; lia).
    rewrite (H n) by lia. reflexivity.
Qed.

Lemma num_sum_ext (n : nat) (f g : nat -> num) :
  (forall l, l < n -> f l = g l) -> num_sum n f = num_sum n g.
Proof.
  induction n as [|n IH]; intros H; simpl.
  - reflexivity.
  - rewrite IH by (intros; apply H; lia).
    rewrite (H n) by lia. reflexivity.
Qed.

Lemma num_sum_nan (n : nat) (f : nat -> num) (l : nat) :
  l < n -> f l = NaN -> num_sum n f = NaN.
Proof.
  induction n as [|n IH]; intros Hl Hf; [lia |]. simpl.
  destruct (Nat.eq_dec l n) as [-> | Hne].
  - rewrite Hf. destruct (num_sum n f); reflexivity.
  - rewrite IH by (try lia; assumption). reflexivity.
Qed.

Lemma Rsum_ext (n : nat) (f g : nat -> R) :
  (forall l, l < n -> f l = g l) -> Rsum n f = Rsum n g.
Proof.
  induction n as [|n IH]; intros H; simpl.
  - reflexivity.
  - rewrite IH by (intros; apply H; lia).
    rewrite (H n) by lia. reflexivity.
Qed.

Lemma Rsum_scal (n : nat) (f : nat -> R) (c : R) :
  Rsum n (fun l => f l * c)%R = (Rsum n f * c)%R.
Proof.
  induction n as [|n IH]; simpl.
  - lra.
  - rewrite IH. lra.
Qed.

Lemma Rsum_nonneg (n : nat) (f : nat -> R) :
  (forall l, l < n -> (0 <= f l)%R) -> (0 <= Rsum n f)%R.
Proof.
  induction n as [|n IH]; intros H; simpl.
  - lra.
  - assert (0 <= Rsum n f)%R by (apply IH; intros; apply H; lia).
    assert (0 <= f n)%R by (apply H; lia). lra.
Qed.

Lemma Rsum_term_le (n : nat) (f : nat -> R) (j : nat) :
  (forall l, l < n -> (0 <= f l)%R) -> j < n -> (f j <= Rsum n f)%R.
Proof.
  induction n as [|n IH]; intros H Hj; simpl.
  - lia.
  - assert (0 <= f n)%R by (apply H; lia).
    assert (0 <= Rsum n f)%R by (apply Rsum_nonneg; intros; apply H; lia).
    destruct (Nat.eq_dec j n) as [->|Hne].
    + lra.
    + assert (f j <= Rsum n f)%R by (apply IH; [intros; apply H|]; lia). lra.
Qed.

Lemma Rsum_const (n : nat) (c : R) :
  Rsum n (fun _ => c) = (INR n * c)%R.
Proof.
  induction n as [|n IH].
  - simpl. lra.
  - change (Rsum (S n) (fun _ => c)) with (Rsum n (fun _ => c) + c)%R.
    rewrite IH, S_INR. lra.
Qed.

(** A sum whose terms vanish except at [j0]. *)
Lemma Rsum_single (n : nat) (f : nat -> R) (j0 : nat) :
  j0 < n ->
  (forall l, l < n -> l <> j0 -> f l = 0%R) ->
  Rsum n f = f j0.
Proof.
  induction n as [|n IH]; intros Hj H; [lia |]. simpl.
  destruct (Nat.eq_dec j0 n) as [-> | Hne].
  - assert (E : Rsum n f = 0%R).
    { rewrite (Rsum_ext n f (fun _ => 0%R)).
      - rewrite Rsum_const. lra.
      - intros l Hl. apply H; lia. }
    rewrite E. lra.
  - rewrite IH by (try lia; intros; apply H; lia).
    rewrite (H n) by lia. lra.
Qed.

(** ** Softmax of a row *)

Lemma num_max_row_cases (n : nat) (x : nat -> num) :
  (forall j, j < n -> x j = NegInf \/ exists r, x j = Fin r) ->
  (num_max_row n x = NegInf /\ forall j, j < n -> x j = NegInf)
  \/ exists m, num_max_row n x = Fin m.
Proof.
  induction n as [|n IH]; intros H; simpl.
  - left. split; [reflexivity | intros; lia].
  - destruct (H n) as [Hn | [r Hn]]; [lia | |];
      (destruct IH as [[Hm Hall] | [m Hm]];
       [intros; apply H; lia | |]); rewrite Hm, Hn; simpl.
    + left. split; [reflexivity |].
      intros j Hj. destruct (Nat.eq_dec j n) as [->|]; [assumption |].
      apply Hall. lia.
    + right. eexists. reflexivity.
    + right. eexists. reflexivity.
    + right. eexists. reflexivity.
Qed.

Lemma num_max_row_finite (n : nat) (x : nat -> num) :
  (forall j, j < n -> x j = NegInf \/ exists r, x j = Fin r) ->
  (exists j0, j0 < n /\ exists r, x j0 = Fin r) ->
  exists m, num_max_row n x = Fin m.
Proof.
  intros H [j0 [Hj0 [r Hr]]].
  destruct (num_max_row_cases n x H) as [[_ Hall] | Hm]; [| assumption].
  rewrite (Hall j0 Hj0) in Hr. discriminate.
Qed.

Lemma num_max_row_ext (n : nat) (f g : nat -> num) :
  (forall l, l < n -> f l = g l) -> num_max_row n f = num_max_row n g.
Proof.
  induction n as [|n IH]; intros H; simpl.
  - reflexivity.
  - rewrite IH by (intros; apply H; lia).
    rewrite (H n) by lia. reflexivity.
Qed.

Lemma ext_exp_nonneg (x : num) : (0 <= ext_exp x)%R.
Proof.
  destruct x; simpl; try lra. left. apply exp_pos.
Qed.

Lemma softmax_row_spec (n : nat) (x : nat -> num) :
  (forall j, j < n -> x j = NegInf \/ exists r, x j = Fin r) ->
  (exists j0, j0 < n /\ exists r, x j0 = Fin r) ->
  (0 < Rsum n (fun i => ext_exp (x i)))%R /\
  forall j, j < n ->
    softmax_row n x j
    = Fin (ext_exp (x j) / Rsum n (fun i => ext_exp (x i))).
Proof.
  intros H Hex.
  destruct (num_max_row_finite n x H Hex) as [m Hm].
  assert (HS : (0 < Rsum n (fun i => ext_exp (x i)))%R).
  { destruct Hex as [j0 [Hj0 [r Hr]]].
    assert (Hle : (ext_exp (x j0) <= Rsum n (fun i => ext_exp (x i)))%R).
    { apply (Rsum_term_le n (fun i => ext_exp (x i)) j0); [| assumption].
      intros. apply ext_exp_nonneg. }
    rewrite Hr in Hle. simpl in Hle. pose proof (exp_pos r). lra. }
  split; [assumption |].
  assert (He : forall i, i < n ->
            num_exp (num_sub (x i) (Fin m))
            = Fin (ext_exp (x i) * exp (- m))).
  { intros i Hi. destruct (H i Hi) as [Hx | [r Hx]]; rewrite Hx; simpl.
    - f_equal. lra.
    - f_equal. apply exp_plus. }
  intros j Hj. unfold softmax_row. rewrite Hm.
  rewrite (He j Hj).
  rewrite (num_sum_Fin n _ (fun i => ext_exp (x i) * exp (- m))%R He).
  rewrite Rsum_scal.
  pose proof (exp_pos (- m)) as Hc.
  rewrite num_div_Fin_pos by (apply Rmult_lt_0_compat; assumption).
  f_equal. field. split; lra.
Qed.

Lemma softmax_row_ext (n : nat) (x y : nat -> num) (j : nat) :
  (forall l, l < n -> x l = y l) -> j < n ->
  softmax_row n x j = softmax_row n y j.
Proof.
  intros H Hj. unfold softmax_row.
  rewrite (num_max_row_ext n x y H), (H j Hj).
  f_equal. apply num_sum_ext. intros l Hl. rewrite (H l Hl). reflexivity.
Qed.

Lemma softmax_row_ext_all (n : nat) (x y : nat -> num) (j : nat) :
  (forall l, x l = y l) -> softmax_row n x j = softmax_row n y j.
Proof.
  intros H. unfold softmax_row.
  rewrite (num_max_row_ext n x y) by (intros; apply H).
  rewrite (H j). f_equal.
  apply num_sum_ext. intros l _. rewrite (H l). reflexivity.
Qed.

(** A row without a finite entry and without [+inf], that is, made of
    [NaN] and [-inf] only, has a softmax that is [NaN] everywhere. *)
Lemma softmax_row_nan (n : nat) (x : nat -> num) (j : nat) :
  (forall l, l < n -> x l = NaN \/ x l = NegInf) -> j < n ->
  softmax_row n x j = NaN.
Proof.
  intros H Hj.
  assert (Hm : num_max_row n x = NaN \/
               (num_max_row n x = NegInf /\
                forall l, l < n -> x l = NegInf)).
  { clear Hj. induction n as [|n IH]; simpl.
    - right. split; [reflexivity | intros; lia].
    - destruct IH as [Hm | [Hm Hall]]; [intros; apply H; lia | |].
      + left. rewrite Hm. reflexivity.
      + destruct (H n) as [Hn | Hn]; [lia | |]; rewrite Hm, Hn.
        * left. reflexivity.
        * right. split; [reflexivity |].
          intros l Hl. destruct (Nat.eq_dec l n) as [-> |];
            [assumption | apply Hall; lia]. }
  unfold softmax_row.
  destruct Hm as [Hm | [Hm Hall]]; rewrite Hm.
  - destruct (x j); reflexivity.
  - rewrite (Hall j Hj). reflexivity.
Qed.

Lemma softmax_row_same (n : nat) (x : nat -> num) (j1 j2 : nat) :
  x j1 = x j2 -> softmax_row n x j1 = softmax_row n x j2.
Proof.
  intros E. unfold softmax_row. rewrite E. reflexivity.
Qed.

(** In a row of finite and masked scores that has a finite score, a masked
    score has weight 0. *)
Lemma softmax_row_masked_zero (n : nat) (x : nat -> num) (j : nat) :
  (forall l, l < n -> x l = NegInf \/ exists r, x l = Fin r) ->
  (exists j0, j0 < n /\ exists r, x j0 = Fin r) ->
  j < n -> x j = NegInf ->
  softmax_row n x j = Fin 0.
Proof.
  intros H Hex Hj Hx.
  destruct (softmax_row_spec n x H Hex) as [_ Hw].
  rewrite (Hw j Hj), Hx. cbn [ext_exp]. f_equal.
  unfold Rdiv. apply Rmult_0_l.
Qed.

(** In a row whose only unmasked score is the finite score at [j0], the
    weight is 1 at [j0] and 0 elsewhere. *)
Lemma softmax_row_single (n : nat) (x : nat -> num) (j0 : nat) (s : R) :
  j0 < n -> x j0 = Fin s ->
  (forall l, l < n -> l <> j0 -> x l = NegInf) ->
  forall j, j < n ->
    softmax_row n x j = Fin (if j =? j0 then 1 else 0).
Proof.
  intros Hj0 Hs Hrest j Hj.
  assert (H : forall l, l < n -> x l = NegInf \/ exists r, x l = Fin r).
  { intros l Hl. destruct (Nat.eq_dec l j0) as [-> | Hne];
      [right; eauto | left; apply Hrest; assumption]. }
  assert (Hex : exists j1, j1 < n /\ exists r, x j1 = Fin r) by eauto.
  destruct (softmax_row_spec n x H Hex) as [HS Hw].
  set (e := fun l => ext_exp (x l)) in *.
  assert (He : forall l, l < n -> l <> j0 -> e l = 0%R).
  { intros l Hl Hne. unfold e. rewrite (Hrest l Hl Hne). reflexivity. }
  rewrite (Rsum_single n e j0 Hj0 He) in HS, Hw.
  rewrite (Hw j Hj). f_equal.
  change (ext_exp (x j)) with (e j).
  destruct (j =? j0) eqn:E.
  - apply Nat.eqb_eq in E. subst j. apply Rinv_r, Rgt_not_eq. exact HS.
  - apply Nat.eqb_neq in E. rewrite (He j Hj E).
    unfold Rdiv. apply Rmult_0_l.
Qed.

(** ** Matrix product and scores *)

Lemma matmul_batched (a b : tensor num) (ba bb B : list nat) (n m p : nat) :
  shape a = ba ++ [n; m] ->
  shape b = bb ++ [m; p] ->
  broadcast_shapes ba bb = Some B ->
  matmul a b = Ok (bmm ba bb B n m p a b).
Proof.
  intros Ha Hb HB. unfold matmul.
  assert (Ea : (List.length (shape a) =? 1) = false)
    by (rewrite Ha; apply rank2_not_1).
  assert (Eb : (List.length (shape b) =? 1) = false)
    by (rewrite Hb; apply rank2_not_1).
  destruct (shape a) as [|xa la] eqn:Sa.
  { destruct ba; discriminate. }
  destruct (shape b) as [|xb lb] eqn:Sb.
  { destruct bb; discriminate. }
  cbv zeta. rewrite Ea, Eb, Sa, Sb, Ha, Hb.
  rewrite !split_last2_app, Nat.eqb_refl, HB. reflexivity.
Qed.

Lemma matmul_inner_mismatch (a b : tensor num) (ba bb : list nat)
    (n m m' p : nat) :
  shape a = ba ++ [n; m] ->
  shape b = bb ++ [m'; p] ->
  m <> m' ->
  matmul a b = Err (RuntimeError "matmul: shapes cannot be multiplied").
Proof.
  intros Ha Hb Hne. unfold matmul.
  assert (Ea : (List.length (shape a) =? 1) = false)
    by (rewrite Ha; apply rank2_not_1).
  assert (Eb : (List.length (shape b) =? 1) = false)
    by (rewrite Hb; apply rank2_not_1).
  destruct (shape a) as [|xa la] eqn:Sa.
  { destruct ba; discriminate. }
  destruct (shape b) as [|xb lb] eqn:Sb.
  { destruct bb; discriminate. }
  cbv zeta. rewrite Ea, Eb, Sa, Sb, Ha, Hb.
  rewrite !split_last2_app.
  apply Nat.eqb_neq in Hne. rewrite Hne. reflexivity.
Qed.

Lemma matmul_batch_mismatch (a b : tensor num) (ba bb : list nat)
    (n m p : nat) :
  shape a = ba ++ [n; m] ->
  shape b = bb ++ [m; p] ->
  broadcast_shapes ba bb = None ->
  matmul a b
  = Err (RuntimeError "matmul: batch dimensions do not broadcast").
Proof.
  intros Ha Hb HB. unfold matmul.
  assert (Ea : (List.length (shape a) =? 1) = false)
    by (rewrite Ha; apply rank2_not_1).
  assert (Eb : (List.length (shape b) =? 1) = false)
    by (rewrite Hb; apply rank2_not_1).
  destruct (shape a) as [|xa la] eqn:Sa.
  { destruct ba; discriminate. }
  destruct (shape b) as [|xb lb] eqn:Sb.
  { destruct bb; discriminate. }
  cbv zeta. rewrite Ea, Eb, Sa, Sb, Ha, Hb.
  rewrite !split_last2_app, Nat.eqb_refl, HB. reflexivity.
Qed.

Lemma swap_last2_app {A : Type} (p : list A) (y z : A) :
  swap_last2 (p ++ [y; z]) = p ++ [z; y].
Proof. unfold swap_last2. rewrite split_last2_app. reflexivity. Qed.

Lemma softmax_last_shape (t : tensor num) :
  shape (softmax_last t) = shape t.
Proof.
  unfold softmax_last. destruct (split_last (shape t)) as [[? ?]|];
    reflexivity.
Qed.

Lemma softmax_last_data (t : tensor num) (pre : list nat) (n : nat) :
  shape t = pre ++ [n] ->
  forall p j,
    data (softmax_last t) (p ++ [j])
    = softmax_row n (fun j' => data t (p ++ [j'])) j.
Proof.
  intros Ht p j. unfold softmax_last.
  rewrite Ht, split_last_app. simpl. rewrite split_last_app. reflexivity.
Qed.

Lemma softmax_last_row (t : tensor num) (bs b : list nat) (n m i j : nat) :
  shape t = bs ++ [n; m] ->
  data (softmax_last t) (b ++ [i; j])
  = softmax_row m (fun j' => data t (b ++ [i; j'])) j.
Proof.
  intros Ht.
  change (b ++ [i; j]) with (b ++ [i] ++ [j]). rewrite app_assoc.
  rewrite (softmax_last_data t (bs ++ [n]) m)
    by (rewrite Ht, <- app_assoc; reflexivity).
  apply softmax_row_ext_all. intros l. rewrite <- app_assoc. reflexivity.
Qed.

Lemma attention_scores_shape (q k : tensor num) (bq bk bqk : list nat)
    (Sq Sk Dk : nat) :
  shape q = bq ++ [Sq; Dk] ->
  shape k = bk ++ [Sk; Dk] ->
  broadcast_shapes bq bk = Some bqk ->
  exists scores,
    attention_scores q k = Ok scores /\ shape scores = bqk ++ [Sq; Sk].
Proof.
  intros Hq Hk HB.
  unfold attention_scores, shape_last, transpose_last2.
  rewrite Hq, split_last_app2, Hk, split_last2_app. cbn [bind].
  rewrite (matmul_batched _ _ bq bk bqk Sq Dk Sk)
    by first [assumption | reflexivity].
  cbn [bind]. eexists. split; reflexivity.
Qed.

Lemma attention_scores_key_dim_mismatch (q k : tensor num)
    (bq bk : list nat) (Sq Sk Dq Dk : nat) :
  shape q = bq ++ [Sq; Dq] ->
  shape k = bk ++ [Sk; Dk] ->
  Dq <> Dk ->
  attention_scores q k
  = Err (RuntimeError "matmul: shapes cannot be multiplied").
Proof.
  intros Hq Hk Hne.
  unfold attention_scores, shape_last, transpose_last2.
  rewrite Hq, split_last_app2, Hk, split_last2_app. cbn [bind].
  rewrite (matmul_inner_mismatch _ _ bq bk Sq Dq Dk Sk)
    by first [assumption | reflexivity].
  reflexivity.
Qed.

Lemma attention_scores_batch_mismatch (q k : tensor num)
    (bq bk : list nat) (Sq Sk Dk : nat) :
  shape q = bq ++ [Sq; Dk] ->
  shape k = bk ++ [Sk; Dk] ->
  broadcast_shapes bq bk = None ->
  attention_scores q k
  = Err (RuntimeError "matmul: batch dimensions do not broadcast").
Proof.
  intros Hq Hk HB.
  unfold attention_scores, shape_last, transpose_last2.
  rewrite Hq, split_last_app2, Hk, split_last2_app. cbn [bind].
  rewrite (matmul_batch_mismatch _ _ bq bk Sq Dk Sk)
    by first [assumption | reflexivity].
  reflexivity.
Qed.

(** The scores entry by entry, whatever the scalars are. *)
Lemma attention_scores_data (q k : tensor num) (bq bk bqk : list nat)
    (Sq Sk Dk : nat) :
  shape q = bq ++ [Sq; Dk] ->
  shape k = bk ++ [Sk; Dk] ->
  broadcast_shapes bq bk = Some bqk ->
  exists scores,
    attention_scores q k = Ok scores /\
    shape scores = bqk ++ [Sq; Sk] /\
    forall b i j,
      data scores (b ++ [i; j])
      = num_div
          (num_sum Dk (fun l =>
             num_mul (data q (expand_index bq b ++ [i; l]))
                     (data k (expand_index bk b ++ [j; l]))))
          (num_sqrt (float32_of_nat Dk)).
Proof.
  intros Hq Hk HB.
  unfold attention_scores, shape_last, transpose_last2.
  rewrite Hq, split_last_app2, Hk, split_last2_app. cbn [bind].
  rewrite (matmul_batched _ _ bq bk bqk Sq Dk Sk)
    by first [assumption | reflexivity].
  cbn [bind]. eexists. split; [reflexivity |]. split; [reflexivity |].
  intros b i j. cbn [tdiv_scalar tmap bmm data]. rewrite split_last2_app.
  f_equal. apply num_sum_ext. intros l _.
  rewrite swap_last2_app. reflexivity.
Qed.

Lemma apply_mask_data (scores : tensor num) (mask : option (tensor num)) :
  mask_fits mask (shape scores) ->
  exists masked,
    apply_mask scores mask = Ok masked /\
    shape masked = shape scores /\
    forall idx, valid_index (shape scores) idx ->
      data masked idx
      = if unmasked mask idx then data scores idx else NegInf.
Proof.
  destruct mask as [m|]; simpl; intros Hfit.
  - unfold masked_fill. simpl shape.
    rewrite (expandable_to_broadcast _ _ Hfit).
    eexists. split; [reflexivity |]. split; [reflexivity |].
    intros idx Hidx. simpl.
    rewrite (expand_index_valid _ _ Hidx).
    unfold mask_at.
    destruct (num_eq0 (data m (expand_index (shape m) idx))); reflexivity.
  - exists scores. split; [reflexivity |]. split; reflexivity.
Qed.

(** The function, once the scores and the masked scores are known. *)
Lemma sdpa_unfold (q k v : tensor num) (mask : option (tensor num))
    (s s' : tensor num) (bs bv B : list nat) (n m p : nat) :
  attention_scores q k = Ok s ->
  apply_mask s mask = Ok s' ->
  shape s' = bs ++ [n; m] ->
  shape v = bv ++ [m; p] ->
  broadcast_shapes bs bv = Some B ->
  scaled_dot_product_attention q k v mask
  = Ok (bmm bs bv B n m p (softmax_last s') v, softmax_last s').
Proof.
  intros Hs Hm Hs' Hv HB. unfold scaled_dot_product_attention.
  rewrite Hs. simpl bind. rewrite Hm. simpl bind.
  rewrite (matmul_batched _ _ bs bv B n m p);
    [reflexivity | rewrite softmax_last_shape | |]; assumption.
Qed.

(** The function on arbitrary scalars, for an admissible mask. *)
Lemma sdpa_num (q k v : tensor num) (mask : option (tensor num))
    (bq bk bv bqk B : list nat) (Sq Sk Dk Dv : nat) :
  shape q = bq ++ [Sq; Dk] ->
  shape k = bk ++ [Sk; Dk] ->
  shape v = bv ++ [Sk; Dv] ->
  broadcast_shapes bq bk = Some bqk ->
  broadcast_shapes bqk bv = Some B ->
  mask_fits mask (bqk ++ [Sq; Sk]) ->
  exists scores masked,
    attention_scores q k = Ok scores /\
    scaled_dot_product_attention q k v mask
    = Ok (bmm bqk bv B Sq Sk Dv (softmax_last masked) v,
          softmax_last masked) /\
    shape scores = bqk ++ [Sq; Sk] /\
    shape masked = bqk ++ [Sq; Sk] /\
    (forall idx, valid_index (bqk ++ [Sq; Sk]) idx ->
       data masked idx
       = if unmasked mask idx then data scores idx else NegInf).
Proof.
  intros Hq Hk Hv Hqk HB Hfit.
  destruct (attention_scores_shape q k bq bk bqk Sq Sk Dk Hq Hk Hqk)
    as [s [Hs Hshape]].
  rewrite <- Hshape in Hfit.
  destruct (apply_mask_data s mask Hfit) as [s' [Hm [Hshape' Hdata']]].
  rewrite Hshape in Hshape', Hdata'.
  exists s, s'. split; [assumption |]. split.
  { apply (sdpa_unfold _ _ _ mask s s'); assumption. }
  auto.
Qed.

(** ** The contract without a mask *)

(** C1.  Without a mask, on [q], [k], [v] of shapes
    [(..., seq_len_q, d_k)], [(..., seq_len_k, d_k)], [(..., seq_len_k, d_v)]
    with broadcast-compatible batch dimensions,
    [scaled_dot_product_attention] returns [(output, weights)] where
    [weights] is the softmax along the key axis of [q k^T / sqrt d_k] and
    [output] is the batched product [weights v].  The right-hand sides are
    the entries [contract_weight] and [contract_output] of the contract,
    for whatever scalars the tensors hold. *)
Theorem attention_unmasked_contract
    (q k v : tensor num) (bq bk bv bqk B : list nat) (Sq Sk Dk Dv : nat) :
  shape q = bq ++ [Sq; Dk] ->
  shape k = bk ++ [Sk; Dk] ->
  shape v = bv ++ [Sk; Dv] ->
  broadcast_shapes bq bk = Some bqk ->
  broadcast_shapes bqk bv = Some B ->
  exists output weights,
    scaled_dot_product_attention q k v None = Ok (output, weights) /\
    shape weights = bqk ++ [Sq; Sk] /\
    shape output = B ++ [Sq; Dv] /\
    (forall b i j,
       data weights (b ++ [i; j])
       = contract_weight q k bq bk Sk Dk None b i j) /\
    (forall b i c,
       data output (b ++ [i; c])
       = contract_output q k v bq bk bv bqk Sk Dk None b i c).
Proof.
  intros Hq Hk Hv Hqk HB.
  destruct (attention_scores_data q k bq bk bqk Sq Sk Dk Hq Hk Hqk)
    as [s [Hs [Hshape Hdata]]].
  assert (Hw : forall b i j,
            data (softmax_last s) (b ++ [i; j])
            = contract_weight q k bq bk Sk Dk None b i j).
  { intros b i j.
    rewrite (softmax_last_row s bqk b Sq Sk i j Hshape).
    apply softmax_row_ext_all. intros l. apply Hdata. }
  exists (bmm bqk bv B Sq Sk Dv (softmax_last s) v), (softmax_last s).
  split.
  { apply (sdpa_unfold _ _ _ None s s); try assumption; reflexivity. }
  split; [rewrite softmax_last_shape; assumption |].
  split; [reflexivity |].
  split; [exact Hw |].
  intros b i c. cbn [bmm data]. rewrite split_last2_app.
  unfold contract_output. apply num_sum_ext.
  intros l _. rewrite Hw. reflexivity.
Qed.

(** ** Masking *)

(** C2, as the code has it.  With a mask broadcastable to
    [(..., seq_len_q, seq_len_k)], every scaled score whose mask entry
    equals zero is replaced by [-inf] before the softmax and every other
    score is left unchanged.  In the returned weights the entry at a masked
    position is 0 in every row that keeps an unmasked key and whose
    unmasked scores are all finite; in a fully masked row it is [NaN]. *)
Theorem attention_mask_contract
    (q k v m : tensor num) (bq bk bv bqk B : list nat)
    (Sq Sk Dk Dv : nat) :
  shape q = bq ++ [Sq; Dk] ->
  shape k = bk ++ [Sk; Dk] ->
  shape v = bv ++ [Sk; Dv] ->
  broadcast_shapes bq bk = Some bqk ->
  broadcast_shapes bqk bv = Some B ->
  expandable_to (shape m) (bqk ++ [Sq; Sk]) = true ->
  exists scores masked output weights,
    attention_scores q k = Ok scores /\
    apply_mask scores (Some m) = Ok masked /\
    scaled_dot_product_attention q k v (Some m) = Ok (output, weights) /\
    weights = softmax_last masked /\
    forall b i j, valid_index bqk b -> i < Sq -> j < Sk ->
      (num_eq0 (mask_at m (b ++ [i; j])) = true ->
         data masked (b ++ [i; j]) = NegInf /\
         ((exists j0, j0 < Sk /\ num_eq0 (mask_at m (b ++ [i; j0])) = false)
          -> (forall j', j' < Sk ->
                num_eq0 (mask_at m (b ++ [i; j'])) = false ->
                exists r, data scores (b ++ [i; j']) = Fin r)
          -> data weights (b ++ [i; j]) = Fin 0) /\
         ((forall j', j' < Sk ->
             num_eq0 (mask_at m (b ++ [i; j'])) = true)
          -> data weights (b ++ [i; j]) = NaN)) /\
      (num_eq0 (mask_at m (b ++ [i; j])) = false ->
         data masked (b ++ [i; j]) = data scores (b ++ [i; j])).
Proof.
  intros Hq Hk Hv Hqk HB Hfit.
  destruct (attention_scores_shape q k bq bk bqk Sq Sk Dk Hq Hk Hqk)
    as [s [Hs Hshape]].
  assert (Hfit' : mask_fits (Some m) (shape s))
    by (rewrite Hshape; exact Hfit).
  destruct (apply_mask_data s (Some m) Hfit') as [s' [Hm [Hshape' Hdata']]].
  rewrite Hshape in Hshape', Hdata'.
  exists s, s', (bmm bqk bv B Sq Sk Dv (softmax_last s') v), (softmax_last s').
  split; [assumption |]. split; [assumption |].
  split.
  { apply (sdpa_unfold _ _ _ (Some m) s s'); assumption. }
  split; [reflexivity |].
  intros b i j Hb Hi Hj.
  assert (Hrow : forall l, l < Sk ->
            data s' (b ++ [i; l])
            = if negb (num_eq0 (mask_at m (b ++ [i; l])))
              then data s (b ++ [i; l]) else NegInf).
  { intros l Hl.
    apply (Hdata' _ (valid_row_index bqk b Sq Sk i l Hb Hi Hl)). }
  pose proof (Hrow j Hj) as Hd.
  split; intros Hz; rewrite Hz in Hd; cbn [negb] in Hd; [| assumption].
  split; [assumption |].
  rewrite (softmax_last_row s' bqk b Sq Sk i j Hshape').
  split.
  - intros [j0 [Hj0 Hnz]] Hfin.
    apply softmax_row_masked_zero; [| | assumption | assumption].
    + intros l Hl. rewrite (Hrow l Hl).
      destruct (num_eq0 (mask_at m (b ++ [i; l]))) eqn:El; cbn [negb];
        [left; reflexivity | right; apply Hfin; assumption].
    + exists j0. split; [assumption |].
      rewrite (Hrow j0 Hj0), Hnz. cbn [negb]. apply Hfin; assumption.
  - intros Hall. apply softmax_row_nan; [| assumption].
    intros l Hl. right. rewrite (Hrow l Hl), (Hall l Hl). reflexivity.
Qed.

(** C2, as stated, fails on a fully masked row: the mask [(1, 1, 2)] of
    zeros is broadcastable to the scores, both keys of the row are masked,
    and the weights at the masked positions are [NaN], not 0. *)
Lemma attention_masked_weight_not_zero :
  exists output weights,
    scaled_dot_product_attention
      (full [1; 1; 1] (Fin 1)) (full [1; 2; 1] (Fin 1))
      (full [1; 2; 1] (Fin 1)) (Some (full [1; 1; 2] (Fin 0)))
    = Ok (output, weights) /\
    expandable_to (shape (full [1; 1; 2] (Fin 0))) [1; 1; 2] = true /\
    num_eq0 (mask_at (full [1; 1; 2] (Fin 0)) [0; 0; 0]) = true /\
    data weights [0; 0; 0] = NaN /\
    data weights [0; 0; 0] <> Fin 0.
Proof.
  do 2 eexists. split; [reflexivity |].
  split; [reflexivity |].
  assert (E : num_eq0 (mask_at (full [1; 1; 2] (Fin 0)) [0; 0; 0]) = true)
    by (cbn; rewrite Rsgn_zero; reflexivity).
  split; [exact E |].
  split.
  - cbn. rewrite Rsgn_zero. reflexivity.
  - cbn. rewrite Rsgn_zero. discriminate.
Qed.

(** ** The range of the weights *)





(** ** Views and in-place writes *)

Lemma list_nat_eqb_eq (a b : list nat) : list_nat_eqb a b = true <-> a = b.
Proof.
  revert b. induction a as [|x a IH]; intros [|y b]; simpl;
    try (split; [discriminate | discriminate]); try tauto.
  rewrite andb_true_iff, Nat.eqb_eq, IH.
  split; [intros [-> ->]; reflexivity | intros E; inversion E; auto].
Qed.

Lemma in_indices (s idx : list nat) :
  In idx (indices s) <-> valid_index s idx.
Proof.
  unfold valid_index. revert idx.
  induction s as [|n s IH]; intros idx; simpl.
  - split.
    + intros [<- | []]. constructor.
    + intros H. inversion H. left. reflexivity.
  - rewrite in_flat_map. split.
    + intros [i [Hi Hin]]. apply in_map_iff in Hin.
      destruct Hin as [idx' [<- Hin']]. apply in_seq in Hi.
      constructor; [lia | apply IH; assumption].
    + intros H. inversion H as [|i n' idx' s' Hlt Hrest]; subst.
      exists i. split; [apply in_seq; lia |].
      apply in_map, IH. assumption.
Qed.

Lemma find_unique {A : Type} (f : A -> bool) (l : list A) (x : A) :
  In x l -> f x = true ->
  (forall y, In y l -> f y = true -> y = x) ->
  find f l = Some x.
Proof.
  induction l as [|a l IH]; simpl; intros Hin Hfx Huniq.
  - contradiction.
  - destruct (f a) eqn:Efa.
    + f_equal. apply Huniq; [left; reflexivity | assumption].
    + destruct Hin as [-> | Hin]; [congruence |].
      apply IH; [assumption | assumption |].
      intros y Hy. apply Huniq. right. assumption.
Qed.

Lemma find_absent {A : Type} (f : A -> bool) (l : list A) :
  (forall y, In y l -> f y = false) -> find f l = None.
Proof.
  induction l as [|a l IH]; simpl; intros H.
  - reflexivity.
  - rewrite (H a) by (left; reflexivity).
    apply IH. intros y Hy. apply H. right. assumption.
Qed.

(** A write through a view is read back at the offset of each of its
    indices, when no other index of the view has that offset. *)
Lemma write_view_hit (h : heap) (dst : view) (f : list nat -> num)
    (idx : list nat) :
  valid_index (v_shape dst) idx ->
  (forall idx', valid_index (v_shape dst) idx' ->
     offset_of dst idx' = offset_of dst idx -> idx' = idx) ->
  cells (write_view h dst f) (v_storage dst) (offset_of dst idx) = f idx.
Proof.
  intros Hv Hinj. simpl. rewrite Nat.eqb_refl.
  rewrite (find_unique _ _ idx).
  - reflexivity.
  - apply in_indices. assumption.
  - apply Nat.eqb_refl.
  - intros y Hy E. apply Hinj; [apply in_indices; assumption |].
    apply Nat.eqb_eq. assumption.
Qed.

(** It leaves alone every offset that no index of the view has. *)
Lemma write_view_miss (h : heap) (dst : view) (f : list nat -> num)
    (sid off : nat) :
  (forall idx', valid_index (v_shape dst) idx' ->
     offset_of dst idx' <> off) ->
  cells (write_view h dst f) sid off = cells h sid off.
Proof.
  intros Hmiss. simpl. destruct (sid =? v_storage dst); [| reflexivity].
  rewrite find_absent; [reflexivity |].
  intros y Hy. apply Nat.eqb_neq, Hmiss, in_indices. assumption.
Qed.

Lemma write_view_other (h : heap) (dst : view) (f : list nat -> num)
    (sid off : nat) :
  sid <> v_storage dst ->
  cells (write_view h dst f) sid off = cells h sid off.
Proof.
  intros Hne. simpl. apply Nat.eqb_neq in Hne. rewrite Hne. reflexivity.
Qed.

Lemma offset_2d_inj (p p' i i' d : nat) :
  i < d -> i' < d -> p' * d + i' = p * d + i -> p' = p /\ i' = i.
Proof.
  intros Hi Hi' E.
  destruct (Nat.lt_trichotomy p' p) as [H | [H | H]].
  - exfalso.
    assert (H0 : S p' * d <= p * d) by (apply Nat.mul_le_mono_r; lia).
    simpl in H0. lia.
  - subst. split; lia.
  - exfalso.
    assert (H0 : S p * d <= p' * d) by (apply Nat.mul_le_mono_r; lia).
    simpl in H0. lia.
Qed.

Lemma valid_index_2d (n m : nat) (idx : list nat) :
  valid_index [n; m] idx ->
  exists p i, idx = [p; i] /\ p < n /\ i < m.
Proof.
  unfold valid_index. intros H.
  inversion H as [|p n' r s' Hp Hr]; subst.
  inversion Hr as [|i m' r' s'' Hi Hr']; subst.
  inversion Hr'; subst. exists p, i. auto.
Qed.

Lemma valid_index_3d (a n m : nat) (idx : list nat) :
  valid_index [a; n; m] idx ->
  exists z p i, idx = [z; p; i] /\ z < a /\ p < n /\ i < m.
Proof.
  unfold valid_index. intros H.
  inversion H as [|z a' r s' Hz Hr]; subst.
  apply valid_index_2d in Hr. destruct Hr as [p [i [-> [Hp Hi]]]].
  exists z, p, i. auto.
Qed.

Lemma div2_even (h : nat) : (2 * h - 0 + 2 - 1) / 2 = h.
Proof. symmetry. apply Nat.div_unique with (r := 1); lia. Qed.

Lemma div2_even_from1 (h : nat) :
  (2 * h - Nat.min 1 (2 * h) + 2 - 1) / 2 = h.
Proof.
  symmetry. destruct h as [|h].
  - reflexivity.
  - apply Nat.div_unique with (r := 0); lia.
Qed.

Lemma div2_odd (h : nat) : (2 * h + 1 - 0 + 2 - 1) / 2 = h + 1.
Proof. symmetry. apply Nat.div_unique with (r := 0); lia. Qed.

Lemma div2_odd_from1 (h : nat) :
  (2 * h + 1 - Nat.min 1 (2 * h + 1) + 2 - 1) / 2 = h.
Proof. symmetry. apply Nat.div_unique with (r := 1); lia. Qed.

Lemma broadcast_column_row (n m : nat) :
  broadcast_shapes [n; 1] [m] = Some [n; m].
Proof.
  unfold broadcast_shapes. simpl.
  destruct m as [|[|m]]; reflexivity.
Qed.

(** ** Construction of the positional table *)

Lemma setitem_same_shape (dst : view) (src : tensor num) (h : heap) :
  v_shape dst = shape src ->
  setitem dst src h = Ok (write_view h dst (data src)).
Proof.
  intros E. unfold setitem.
  rewrite (proj2 (list_nat_eqb_eq _ _) E). reflexivity.
Qed.

Lemma ln_10000_pos : (0 < ln 10000)%R.
Proof.
  rewrite <- ln_1. apply ln_increasing; lra.
Qed.

(** The scalar [-math.log(10000.0) / d_model] is negative. *)
Lemma py_div_negative (d : Z) :
  (0 < d)%Z -> (- ln 10000 / IZR d < 0)%R.
Proof.
  intros Hd.
  assert (H1 : (0 < IZR d)%R) by (apply (IZR_lt 0 d); assumption).
  pose proof ln_10000_pos as H2.
  pose proof (Rinv_0_lt_compat _ H1) as H3.
  unfold Rdiv. nra.
Qed.

(** At position 0 every angle is 0. *)
Lemma table_angle_row0 (c : R) (i : nat) :
  (c < 0)%R -> table_angle c 0 i = Fin 0.
Proof.
  intros Hc. unfold table_angle. rewrite float32_of_nat_0.
  destruct (float32_of_nat_cases (2 * i)) as [E | [r E]]; rewrite E.
  - cbn [num_mul num_sgn]. rewrite (Rsgn_neg c Hc).
    cbn [sign_mul inf_of_sign num_exp]. f_equal. lra.
  - cbn [num_mul num_exp]. f_equal. lra.
Qed.

(** In the first channel pair the frequency is 1 and the angle is the
    float32 position. *)
Lemma table_angle_col0 (c : R) (p : nat) :
  table_angle c p 0 = float32_of_nat p.
Proof.
  unfold table_angle. change (2 * 0) with 0. rewrite float32_of_nat_0.
  cbn [num_mul num_exp]. rewrite Rmult_0_l, exp_0.
  destruct (float32_of_nat_cases p) as [E | [r E]]; rewrite E.
  - cbn [num_mul num_sgn]. rewrite (Rsgn_pos 1 Rlt_0_1). reflexivity.
  - cbn [num_mul]. f_equal. lra.
Qed.

(** The tensor [position * div_term] of [__init__]. *)
Lemma init_angles (n d : nat) (c : R) :
  exists angles,
    tmul (unsqueeze 1 (arange 0 n 1))
         (tmap num_exp (tmap (fun x => num_mul x (Fin c)) (arange 0 d 2)))
    = Ok angles /\
    shape angles = [n; (d - 0 + 2 - 1) / 2] /\
    forall p i, p < n -> i < (d - 0 + 2 - 1) / 2 ->
      data angles [p; i] = table_angle c p i.
Proof.
  assert (En : (n - 0 + 1 - 1) / 1 = n)
    by (rewrite Nat.div_1_r; lia).
  unfold tmul.
  change (shape (unsqueeze 1 (arange 0 n 1)))
    with [(n - 0 + 1 - 1) / 1; 1].
  change (shape (tmap num_exp
                   (tmap (fun x => num_mul x (Fin c)) (arange 0 d 2))))
    with [(d - 0 + 2 - 1) / 2].
  rewrite En, broadcast_column_row.
  eexists. split; [reflexivity |]. split; [reflexivity |].
  intros p i Hp Hi.
  set (m := (d - 0 + 2 - 1) / 2) in *.
  cbn [data]. unfold expand_index.
  cbn [List.length Nat.sub skipn combine map fst snd].
  assert (E1 : (if n =? 1 then 0 else p) = p).
  { destruct (n =? 1) eqn:E; [apply Nat.eqb_eq in E; lia | reflexivity]. }
  assert (E2 : (if m =? 1 then 0 else i) = i).
  { destruct (m =? 1) eqn:E; [apply Nat.eqb_eq in E; lia | reflexivity]. }
  rewrite E1, E2.
  cbn [data unsqueeze arange tmap firstn skipn app nth Nat.eqb].
  replace (0 + p * 1) with p by lia.
  replace (0 + i * 2) with (2 * i) by lia.
  reflexivity.
Qed.

Lemma slice_even_columns (sid n h0 : nat) :
  slice_dim (mkView sid 0 [n; 2 * h0] (contiguous_strides [n; 2 * h0]))
            1 0 None 2
  = mkView sid 0 [n; h0] [2 * h0 * 1; 2].
Proof.
  unfold slice_dim.
  cbn [v_shape v_strides v_offset v_storage nth set_nth contiguous_strides
       fold_right Nat.min].
  rewrite div2_even. reflexivity.
Qed.

Lemma slice_odd_columns (sid n h0 : nat) :
  0 < h0 ->
  slice_dim (mkView sid 0 [n; 2 * h0] (contiguous_strides [n; 2 * h0]))
            1 1 None 2
  = mkView sid 1 [n; h0] [2 * h0 * 1; 2].
Proof.
  intros Hh. unfold slice_dim.
  cbn [v_shape v_strides v_offset v_storage nth set_nth contiguous_strides
       fold_right].
  rewrite div2_even_from1.
  replace (Nat.min 1 (2 * h0)) with 1 by lia. reflexivity.
Qed.

(** Construction with an even, positive [d_model = 2 * h0]: both slice
    assignments succeed and fill the even and the odd columns. *)
Lemma init_even (M d : Z) (h : heap) (h0 : nat) :
  (0 <= M)%Z -> (0 < d)%Z -> Z.to_nat d = 2 * h0 ->
  exists h',
    SinusoidalPositionalEmbedding_init M d h
    = Ok (mkModule (mkView (next_id h) 0 [Z.to_nat M; 2 * h0]
                           [2 * h0 * 1; 1]), h') /\
    forall p i, p < Z.to_nat M -> i < h0 ->
      cells h' (next_id h) (p * (2 * h0) + 2 * i)
      = num_sin (table_angle (- ln 10000 / IZR d) p i) /\
      cells h' (next_id h) (p * (2 * h0) + 2 * i + 1)
      = num_cos (table_angle (- ln 10000 / IZR d) p i).
Proof.
  intros HM Hd Hh0.
  unfold SinusoidalPositionalEmbedding_init, zeros.
  cbn [forallb map].
  rewrite (proj2 (Z.leb_le 0 M) HM).
  rewrite (proj2 (Z.leb_le 0 d)) by lia.
  cbn [andb bind fst snd]. unfold py_div.
  rewrite (proj2 (Z.eqb_neq d 0)) by lia.
  cbn [bind]. rewrite Hh0.
  set (n := Z.to_nat M). set (c := (- ln 10000 / IZR d)%R).
  destruct (init_angles n (2 * h0) c) as [angles [Ha [Hshape Hdata]]].
  rewrite Ha. cbn [bind].
  rewrite div2_even in Hshape, Hdata.
  assert (Hpos : 0 < h0) by lia.
  rewrite slice_even_columns, (slice_odd_columns _ _ _ Hpos).
  set (sinv := mkView (next_id h) 0 [n; h0] [2 * h0 * 1; 2]).
  set (cosv := mkView (next_id h) 1 [n; h0] [2 * h0 * 1; 2]).
  rewrite (setitem_same_shape sinv) by (symmetry; exact Hshape).
  cbn [bind].
  rewrite (setitem_same_shape cosv) by (symmetry; exact Hshape).
  cbn [bind contiguous_strides fold_right].
  eexists. split; [reflexivity |].
  intros p i Hp Hi. split.
  - rewrite write_view_miss.
    2:{ intros idx' Hv. apply valid_index_2d in Hv.
        destruct Hv as [p' [i' [-> [_ _]]]].
        unfold offset_of. cbn [cosv v_offset v_strides dot]. lia. }
    replace (p * (2 * h0) + 2 * i) with (offset_of sinv [p; i])
      by (unfold offset_of; cbn [sinv v_offset v_strides dot]; lia).
    change (next_id h) with (v_storage sinv) at 1.
    rewrite write_view_hit.
    + cbn [tmap data]. rewrite (Hdata p i Hp Hi). reflexivity.
    + repeat constructor; assumption.
    + intros idx' Hv E. apply valid_index_2d in Hv.
      destruct Hv as [p' [i' [-> [_ Hi']]]].
      unfold offset_of in E. cbn [sinv v_offset v_strides dot] in E.
      destruct (offset_2d_inj p p' (2 * i) (2 * i') (2 * h0)) as [-> E'];
        try lia.
      f_equal. f_equal. lia.
  - replace (p * (2 * h0) + 2 * i + 1) with (offset_of cosv [p; i])
      by (unfold offset_of; cbn [cosv v_offset v_strides dot]; lia).
    change (next_id h) with (v_storage cosv) at 1.
    rewrite write_view_hit.
    + cbn [tmap data]. rewrite (Hdata p i Hp Hi). reflexivity.
    + repeat constructor; assumption.
    + intros idx' Hv E. apply valid_index_2d in Hv.
      destruct Hv as [p' [i' [-> [_ Hi']]]].
      unfold offset_of in E. cbn [cosv v_offset v_strides dot] in E.
      destruct (offset_2d_inj p p' (2 * i) (2 * i') (2 * h0)) as [-> E'];
        try lia.
      f_equal. f_equal. lia.
Qed.

Lemma init_inv (M d : Z) (h h' : heap) (m : SinusoidalPositionalEmbedding) :
  SinusoidalPositionalEmbedding_init M d h = Ok (m, h') ->
  (0 <= M)%Z /\ (0 <= d)%Z /\
  pe m = mkView (next_id h) 0 [Z.to_nat M; Z.to_nat d] [Z.to_nat d * 1; 1].
Proof.
  unfold SinusoidalPositionalEmbedding_init, zeros. cbn [forallb].
  destruct (0 <=? M)%Z eqn:EM; [| discriminate].
  destruct (0 <=? d)%Z eqn:Ed; [| discriminate].
  cbn [andb bind fst snd map].
  destruct (py_div _ _); cbn [bind]; [| discriminate].
  destruct (tmul _ _); cbn [bind]; [| discriminate].
  destruct (setitem _ _ _); cbn [bind]; [| discriminate].
  destruct (setitem _ _ _); cbn [bind]; [| discriminate].
  intros E. inversion E; subst.
  apply Z.leb_le in EM. apply Z.leb_le in Ed. auto.
Qed.

(** Every successful construction with an even [d_model = 2 * h0] holds the
    sine and cosine of the same angle in each channel pair. *)
Lemma init_even_read (max_seq_len d_model : Z) (h h' : heap)
    (m : SinusoidalPositionalEmbedding) (h0 : nat) :
  SinusoidalPositionalEmbedding_init max_seq_len d_model h = Ok (m, h') ->
  (0 < d_model)%Z -> Z.to_nat d_model = 2 * h0 ->
  forall p i, p < Z.to_nat max_seq_len -> i < h0 ->
    data (read_view h' (pe m)) [p; 2 * i]
    = num_sin (table_angle (- ln 10000 / IZR d_model) p i) /\
    data (read_view h' (pe m)) [p; 2 * i + 1]
    = num_cos (table_angle (- ln 10000 / IZR d_model) p i).
Proof.
  intros Hinit Hd Eh0 p i Hp Hi.
  destruct (init_inv _ _ _ _ _ Hinit) as [HM [_ _]].
  destruct (init_even max_seq_len d_model h h0 HM Hd Eh0)
    as [h1 [Hinit' Hcells]].
  rewrite Hinit in Hinit'. inversion Hinit'; subst m h'.
  destruct (Hcells p i Hp Hi) as [Hs Hc].
  unfold read_view, offset_of. cbn [data pe v_offset v_strides v_storage dot].
  rewrite <- Hs, <- Hc. split; f_equal; lia.
Qed.

Lemma div1_id (a : nat) : (a - 0 + 1 - 1) / 1 = a.
Proof. rewrite Nat.div_1_r. lia. Qed.

(** The view that [forward] returns on a contiguous two-dimensional
    buffer: [x.shape[1]] is clamped to the number of rows. *)
Lemma forward_view {A : Type} (m : SinusoidalPositionalEmbedding)
    (x : tensor A) (g : heap) (sid n rows cols : nat) :
  pe m = mkView sid 0 [rows; cols] [cols * 1; 1] ->
  shape_at x 1 = Ok n ->
  forward m x g
  = Ok (mkView sid 0 [1; Nat.min n rows; cols]
               [Nat.min n rows * (cols * 1 * 1); cols * 1 * 1; 1 * 1], g).
Proof.
  intros Hpe Hn. unfold forward. rewrite Hn, Hpe. cbn [bind].
  unfold slice_dim, view_unsqueeze.
  cbn [v_shape v_strides v_offset v_storage nth set_nth Nat.min
       List.length Nat.ltb Nat.leb firstn skipn app].
  rewrite !div1_id. reflexivity.
Qed.

Lemma forward_heap_unchanged {A : Type} (m : SinusoidalPositionalEmbedding)
    (x : tensor A) (g g' : heap) (out : view) :
  forward m x g = Ok (out, g') -> g' = g.
Proof.
  unfold forward. destruct (shape_at x 1); cbn [bind]; [| discriminate].
  intros E. inversion E. reflexivity.
Qed.

Lemma even_to_nat (d : Z) :
  (0 < d)%Z -> Z.even d = true ->
  exists h0, Z.to_nat d = 2 * h0 /\ 0 < h0.
Proof.
  intros Hd He. apply Z.even_spec in He. destruct He as [k Hk].
  exists (Z.to_nat k). split; lia.
Qed.

(** C3, as the code has it.  A construction with positive [max_seq_len]
    and positive even [d_model] that succeeds stores a table [pe] of shape
    [(max_seq_len, d_model)] with, for every position [p] and pair index
    [i < d_model / 2], [pe[p, 2i]] the sine and [pe[p, 2i+1]] the cosine of
    the angle [table_angle c p i]: the float32 value of [p] times
    [exp ((2 i) * c)], where [c] is [-math.log(10000.0) / d_model].  Row 0
    is 0 on the even and 1 on the odd channels, [pe[p, 0]] is the sine of
    the float32 value of [p], and that value is [p] itself below [2^24]. *)
Theorem positional_table_invariant (max_seq_len d_model : Z) (h h' : heap)
    (m : SinusoidalPositionalEmbedding) :
  SinusoidalPositionalEmbedding_init max_seq_len d_model h = Ok (m, h') ->
  (0 < max_seq_len)%Z -> (0 < d_model)%Z -> Z.even d_model = true ->
  exists c,
    py_div (- ln 10000) d_model = Ok c /\
    let table := read_view h' (pe m) in
    shape table = [Z.to_nat max_seq_len; Z.to_nat d_model] /\
    (forall p i, p < Z.to_nat max_seq_len -> i < Z.to_nat d_model / 2 ->
       data table [p; 2 * i] = num_sin (table_angle c p i) /\
       data table [p; 2 * i + 1] = num_cos (table_angle c p i)) /\
    (forall i, i < Z.to_nat d_model / 2 ->
       data table [0; 2 * i] = Fin 0 /\ data table [0; 2 * i + 1] = Fin 1) /\
    (forall p, p < Z.to_nat max_seq_len ->
       data table [p; 0] = num_sin (float32_of_nat p)) /\
    (forall p, (Z.of_nat p < 2 ^ 24)%Z -> float32_of_nat p = Fin (INR p)).
Proof.
  intros Hinit HM Hd He.
  destruct (even_to_nat d_model Hd He) as [h0 [Eh0 Hh0]].
  exists (- ln 10000 / IZR d_model)%R.
  split.
  { unfold py_div. rewrite (proj2 (Z.eqb_neq d_model 0)) by lia.
    reflexivity. }
  assert (Hhalf : Z.to_nat d_model / 2 = h0).
  { rewrite Eh0, Nat.mul_comm. apply Nat.div_mul. lia. }
  rewrite Hhalf.
  pose proof (init_even_read _ _ _ _ _ h0 Hinit Hd Eh0) as Hread.
  destruct (init_inv _ _ _ _ _ Hinit) as [_ [_ Hpe]].
  cbn zeta.
  split; [rewrite Hpe; reflexivity |].
  split; [exact Hread |].
  split; [| split].
  - intros i Hi.
    assert (H0 : 0 < Z.to_nat max_seq_len) by lia.
    destruct (Hread 0 i H0 Hi) as [Hs Hc]. rewrite Hs, Hc.
    rewrite (table_angle_row0 _ i (py_div_negative d_model Hd)).
    cbn [num_sin num_cos]. rewrite sin_0, cos_0. split; reflexivity.
  - intros p Hp. destruct (Hread p 0 Hp Hh0) as [Hs _].
    change (2 * 0) with 0 in Hs. rewrite Hs, table_angle_col0.
    reflexivity.
  - exact float32_of_nat_small.
Qed.

(** C3, as stated, fails at the position [p = 2^24 + 1] of a table with
    [d_model = 2]: the positions are float32 numbers, [p] is stored as
    [2^24], and [pe[p, 0]], [pe[p, 1]] are the sine and cosine of [2^24],
    which are not both those of [p * omega_0 = p]. *)
Lemma positional_table_position_rounded :
  exists m h',
    SinusoidalPositionalEmbedding_init 16777218 2 empty_heap = Ok (m, h') /\
    Z.to_nat 16777217 < Z.to_nat 16777218 /\
    float32_of_nat (Z.to_nat 16777217) = Fin (IZR 16777216) /\
    data (read_view h' (pe m)) [Z.to_nat 16777217; 0]
    = num_sin (Fin (IZR 16777216)) /\
    data (read_view h' (pe m)) [Z.to_nat 16777217; 1]
    = num_cos (Fin (IZR 16777216)) /\
    ~ (data (read_view h' (pe m)) [Z.to_nat 16777217; 0]
       = Fin (sin (INR (Z.to_nat 16777217) * omega 2 0)) /\
       data (read_view h' (pe m)) [Z.to_nat 16777217; 1]
       = Fin (cos (INR (Z.to_nat 16777217) * omega 2 0))).
Proof.
  destruct (init_even 16777218 2 empty_heap 1) as [h1 [Hinit _]];
    [lia | lia | reflexivity |].
  set (p := Z.to_nat 16777217).
  assert (Hp : p < Z.to_nat 16777218) by (unfold p; lia).
  assert (Hf : float32_of_nat p = Fin (IZR 16777216)).
  { unfold float32_of_nat, p. rewrite Z2Nat.id by lia. reflexivity. }
  assert (Hd : (0 < 2)%Z) by lia.
  destruct (init_even_read 16777218 2 empty_heap h1 _ 1 Hinit Hd eq_refl
              p 0 Hp Nat.lt_0_1) as [Hs Hc].
  change (2 * 0 + 1) with 1 in Hc. change (2 * 0) with 0 in Hs.
  rewrite table_angle_col0, Hf in Hs, Hc.
  do 2 eexists. split; [exact Hinit |].
  split; [exact Hp |]. split; [exact Hf |].
  split; [exact Hs |]. split; [exact Hc |].
  intros [Es Ec]. rewrite Hs in Es. rewrite Hc in Ec.
  assert (Hb : (INR p * omega 2 0 = IZR 16777216 + 1)%R).
  { unfold omega, p. rewrite INR_IZR_INZ, Z2Nat.id by lia.
    replace (- ln 10000 * (2 * INR 0) / 2)%R with 0%R
      by (cbn [INR]; unfold Rdiv; ring).
    rewrite exp_0. lra. }
  rewrite Hb in Es, Ec. cbn [num_sin num_cos] in Es, Ec.
  assert (Es' : sin (IZR 16777216) = sin (IZR 16777216 + 1)) by congruence.
  assert (Ec' : cos (IZR 16777216) = cos (IZR 16777216 + 1)) by congruence.
  assert (H1 : sin 1 = 0%R).
  { replace 1%R with (IZR 16777216 + 1 - IZR 16777216)%R at 1 by ring.
    rewrite sin_minus, <- Es', <- Ec'. ring. }
  assert (Hpi : (1 < PI)%R) by (pose proof PI2_1; pose proof PI_RGT_0; lra).
  pose proof (sin_gt_0 1 Rlt_0_1 Hpi). lra.
Qed.

(** ** The query operation *)

(** C7.  On a constructed table, a query of length [n <= max_seq_len]
    (the length is [x.shape[1]]) returns the first [n] rows of [pe] under a
    new leading axis of size 1: a tensor of shape [(1, n, d_model)].  The
    case [n = 0] is included. *)
Theorem forward_returns_prefix {A : Type} (max_seq_len d_model : Z)
    (h h' : heap) (m : SinusoidalPositionalEmbedding) (x : tensor A)
    (n : nat) :
  SinusoidalPositionalEmbedding_init max_seq_len d_model h = Ok (m, h') ->
  shape_at x 1 = Ok n ->
  n <= Z.to_nat max_seq_len ->
  forall g, exists out,
    forward m x g = Ok (out, g) /\
    shape (read_view g out) = [1; n; Z.to_nat d_model] /\
    forall p c, p < n -> c < Z.to_nat d_model ->
      data (read_view g out) [0; p; c] = data (read_view g (pe m)) [p; c].
Proof.
  intros Hinit Hn Hle g.
  destruct (init_inv _ _ _ _ _ Hinit) as [_ [_ Hpe]].
  eexists. split; [apply (forward_view m x g _ n _ _ Hpe Hn) |].
  rewrite Nat.min_l by assumption.
  split; [reflexivity |].
  intros p c Hp Hc. rewrite Hpe.
  unfold read_view, offset_of.
  cbn [data v_offset v_strides v_storage dot]. f_equal. lia.
Qed.

(** C6.  The query does not check its range: on a table with
    [max_seq_len = 2] a query of length 3 raises nothing and returns a
    slice of shape [(1, 2, 2)], neither an error nor the documented shape
    [(1, seq_len, d_model)]. *)
Theorem forward_beyond_max_seq_len_is_clamped :
  exists m h' out,
    SinusoidalPositionalEmbedding_init 2 2 empty_heap = Ok (m, h') /\
    forward m (full [1; 3] tt) h' = Ok (out, h') /\
    v_shape out = [1; 2; 2].
Proof.
  do 3 eexists. split; [reflexivity |]. split; reflexivity.
Qed.

(** The general form of the same fact: the length is clamped to
    [max_seq_len]. *)
Lemma forward_clamps {A : Type} (max_seq_len d_model : Z)
    (h h' : heap) (m : SinusoidalPositionalEmbedding) (x : tensor A)
    (n : nat) :
  SinusoidalPositionalEmbedding_init max_seq_len d_model h = Ok (m, h') ->
  shape_at x 1 = Ok n ->
  forall g, exists out,
    forward m x g = Ok (out, g) /\
    v_shape out = [1; Nat.min n (Z.to_nat max_seq_len); Z.to_nat d_model].
Proof.
  intros Hinit Hn g.
  destruct (init_inv _ _ _ _ _ Hinit) as [_ [_ Hpe]].
  eexists. split; [apply (forward_view m x g _ n _ _ Hpe Hn) |].
  reflexivity.
Qed.

(** ** Aliasing between the result of a query and the table *)

Lemma setitem_scalar (dst : view) (c : num) (g : heap) :
  setitem dst (scalar c) g = Ok (write_view g dst (fun _ => c)).
Proof.
  unfold setitem. destruct (list_nat_eqb (v_shape dst) (shape (scalar c)));
    reflexivity.
Qed.

(** C9, as the code has it.  The table is written by the construction
    only: no query writes, each returns the heap it was given.  The result
    of a query is a view of the storage of [pe], so an in-place write of the
    caller through it (here [out[...] = c]) is a write to the first [n] rows
    of [pe]. *)
Theorem forward_frame_and_aliasing {A : Type} (max_seq_len d_model : Z)
    (h h' : heap) (m : SinusoidalPositionalEmbedding) (x : tensor A)
    (n : nat) :
  SinusoidalPositionalEmbedding_init max_seq_len d_model h = Ok (m, h') ->
  shape_at x 1 = Ok n ->
  n <= Z.to_nat max_seq_len ->
  (forall (B : Type) (y : tensor B) g r g',
     forward m y g = Ok (r, g') -> g' = g) /\
  exists out,
    (forall g, forward m x g = Ok (out, g)) /\
    v_storage out = v_storage (pe m) /\
    forall g c, exists g',
      setitem out (scalar c) g = Ok g' /\
      forall p j, p < n -> j < Z.to_nat d_model ->
        data (read_view g' (pe m)) [p; j] = c.
Proof.
  intros Hinit Hn Hle.
  split; [intros B y g r g'; apply forward_heap_unchanged |].
  destruct (init_inv _ _ _ _ _ Hinit) as [_ [_ Hpe]].
  set (rows := Z.to_nat max_seq_len) in *.
  set (cols := Z.to_nat d_model) in *.
  set (out := mkView (next_id h) 0 [1; Nat.min n rows; cols]
                [Nat.min n rows * (cols * 1 * 1); cols * 1 * 1; 1 * 1]).
  exists out.
  split; [intros g; apply (forward_view m x g _ n _ _ Hpe Hn) |].
  split; [rewrite Hpe; reflexivity |].
  intros g c. eexists. split; [apply setitem_scalar |].
  intros p j Hp Hj. rewrite Hpe.
  unfold read_view. cbn [data v_storage].
  replace (offset_of (mkView (next_id h) 0 [rows; cols] [cols * 1; 1]) [p; j])
    with (offset_of out [0; p; j])
    by (unfold offset_of; cbn [out v_offset v_strides dot]; lia).
  change (next_id h) with (v_storage out).
  rewrite write_view_hit.
  - reflexivity.
  - cbn [out v_shape]. rewrite Nat.min_l by assumption.
    repeat constructor; assumption.
  - intros idx' Hv E. cbn [out v_shape] in Hv.
    apply valid_index_3d in Hv.
    destruct Hv as [z [p' [j' [-> [Hz [_ Hj']]]]]].
    assert (z = 0) by lia. subst z.
    unfold offset_of in E. cbn [out v_offset v_strides dot] in E.
    destruct (offset_2d_inj p p' j j' cols) as [-> ->]; try lia.
    reflexivity.
Qed.

(** C9, as the specification has it, fails: after the caller writes 7
    through the tensor a query returned, the stored table has changed
    ([pe[0, 1]] was [cos 0 = 1]). *)
Lemma forward_result_aliases_pe :
  exists m h1 out h2,
    SinusoidalPositionalEmbedding_init 1 2 empty_heap = Ok (m, h1) /\
    forward m (full [1; 1] tt) h1 = Ok (out, h1) /\
    setitem out (scalar (Fin 7)) h1 = Ok h2 /\
    data (read_view h1 (pe m)) [0; 1] = Fin 1 /\
    data (read_view h2 (pe m)) [0; 1] = Fin 7.
Proof.
  destruct (init_even 1 2 empty_heap 1) as [h1 [Hinit Hcells]];
    [lia | lia | reflexivity |].
  exists (mkModule (mkView 0 0 [1; 2] [2; 1])), h1,
         (mkView 0 0 [1; 1; 2] [2; 2; 1]),
         (write_view h1 (mkView 0 0 [1; 1; 2] [2; 2; 1]) (fun _ => Fin 7)).
  split; [exact Hinit |]. split; [reflexivity |].
  split; [apply setitem_scalar |].
  split.
  - assert (H0 : 0 < Z.to_nat 1) by (simpl; lia).
    destruct (Hcells 0 0 H0 (Nat.lt_0_1)) as [_ Hcos].
    assert (Hd : (0 < 2)%Z) by lia.
    rewrite (table_angle_row0 _ 0 (py_div_negative 2 Hd)) in Hcos.
    cbn [num_cos] in Hcos. rewrite cos_0 in Hcos. exact Hcos.
  - reflexivity.
Qed.

(** ** Construction with an odd [d_model] *)

Lemma slice_even_columns_odd (sid n h0 : nat) :
  slice_dim (mkView sid 0 [n; 2 * h0 + 1]
                    (contiguous_strides [n; 2 * h0 + 1])) 1 0 None 2
  = mkView sid 0 [n; h0 + 1] [(2 * h0 + 1) * 1; 2].
Proof.
  unfold slice_dim.
  cbn [v_shape v_strides v_offset v_storage nth set_nth contiguous_strides
       fold_right Nat.min].
  rewrite div2_odd. reflexivity.
Qed.

Lemma slice_odd_columns_odd (sid n h0 : nat) :
  slice_dim (mkView sid 0 [n; 2 * h0 + 1]
                    (contiguous_strides [n; 2 * h0 + 1])) 1 1 None 2
  = mkView sid 1 [n; h0] [(2 * h0 + 1) * 1; 2].
Proof.
  unfold slice_dim.
  cbn [v_shape v_strides v_offset v_storage nth set_nth contiguous_strides
       fold_right].
  rewrite div2_odd_from1.
  replace (Nat.min 1 (2 * h0 + 1)) with 1 by lia. reflexivity.
Qed.

(** A source with one column too many, and more than one, cannot be
    expanded to the destination. *)
Lemma setitem_one_column_short (dst : view) (src : tensor num) (g : heap)
    (n k : nat) :
  v_shape dst = [n; S k] ->
  shape src = [n; S (S k)] ->
  setitem dst src g
  = Err (RuntimeError "setitem: expanded size must match existing size").
Proof.
  intros Hd Hs. unfold setitem, strip_leading_ones. rewrite Hd, Hs.
  assert (E1 : (S k =? S (S k)) = false) by (apply Nat.eqb_neq; lia).
  assert (E2 : (S (S k) =? S k) = false) by (apply Nat.eqb_neq; lia).
  assert (E3 : (S (S k) =? 1) = false) by (apply Nat.eqb_neq; lia).
  cbn [list_nat_eqb shape].
  rewrite Nat.eqb_refl, E1. cbn [andb List.length].
  change (2 =? 0) with false. cbv iota.
  unfold expandable_to.
  destruct n as [|[|n]];
    cbn [leading_ones skipn rev app expandable_rev];
    rewrite E2, E3; reflexivity.
Qed.

(** C10, as the code has it.  With an odd [d_model >= 3] the sine
    assignment succeeds and the cosine assignment, which would write
    [ceil(d_model/2)] columns into the [floor(d_model/2)] odd columns,
    aborts the construction with the shape error. *)
Theorem init_odd_d_model_fails (max_seq_len d_model : Z) (h : heap) :
  (0 <= max_seq_len)%Z -> (3 <= d_model)%Z -> Z.odd d_model = true ->
  SinusoidalPositionalEmbedding_init max_seq_len d_model h
  = Err (RuntimeError "setitem: expanded size must match existing size").
Proof.
  intros HM Hd Ho.
  assert (Hk : exists k, Z.to_nat d_model = 2 * S k + 1).
  { apply Z.odd_spec in Ho. destruct Ho as [j Hj].
    exists (Z.to_nat j - 1). lia. }
  destruct Hk as [k Hk].
  unfold SinusoidalPositionalEmbedding_init, zeros.
  cbn [forallb map].
  rewrite (proj2 (Z.leb_le 0 max_seq_len) HM).
  rewrite (proj2 (Z.leb_le 0 d_model)) by lia.
  cbn [andb bind fst snd]. unfold py_div.
  rewrite (proj2 (Z.eqb_neq d_model 0)) by lia.
  cbn [bind]. rewrite Hk.
  set (n := Z.to_nat max_seq_len). set (c := (- ln 10000 / IZR d_model)%R).
  destruct (init_angles n (2 * S k + 1) c) as [angles [Ha [Hshape _]]].
  rewrite Ha. cbn [bind].
  rewrite div2_odd in Hshape.
  rewrite slice_even_columns_odd, slice_odd_columns_odd.
  rewrite setitem_same_shape by (symmetry; exact Hshape).
  cbn [bind].
  rewrite (setitem_one_column_short _ _ _ n k).
  - reflexivity.
  - reflexivity.
  - cbn [tmap shape]. rewrite Hshape. f_equal. f_equal. lia.
Qed.

(** C10, as stated, fails at [d_model = 1]: the [(max_seq_len, 1)] source
    of the cosine assignment expands to the empty slice [pe[:, 1::2]], no
    error is raised, and the table has its single sine column. *)
Lemma init_d_model_1_succeeds :
  Z.odd 1 = true /\
  exists m h',
    SinusoidalPositionalEmbedding_init 2 1 empty_heap = Ok (m, h') /\
    shape (read_view h' (pe m)) = [2; 1].
Proof.
  split; [reflexivity |].
  do 2 eexists. split; reflexivity.
Qed.

(** ** Shapes and shape errors of the attention kernel *)

(** C8.  For [q : (B, Sq, Dk)], [k : (B, Sk, Dk)], [v : (B, Sk, Dv)], and
    no mask or a mask broadcastable to [(B, Sq, Sk)], the function returns
    an output of shape [(B, Sq, Dv)] and weights of shape [(B, Sq, Sk)]. *)
Theorem attention_shapes (q k v : tensor num) (mask : option (tensor num))
    (B Sq Sk Dk Dv : nat) :
  shape q = [B; Sq; Dk] ->
  shape k = [B; Sk; Dk] ->
  shape v = [B; Sk; Dv] ->
  mask_fits mask [B; Sq; Sk] ->
  exists output weights,
    scaled_dot_product_attention q k v mask = Ok (output, weights) /\
    shape output = [B; Sq; Dv] /\
    shape weights = [B; Sq; Sk].
Proof.
  intros Hq Hk Hv Hfit.
  destruct (attention_scores_shape q k [B] [B] [B] Sq Sk Dk Hq Hk
              (broadcast_shapes_refl [B]))
    as [s [Hs Hshape]].
  cbn [app] in Hshape. rewrite <- Hshape in Hfit.
  destruct (apply_mask_data s mask Hfit) as [s' [Hm [Hshape' _]]].
  rewrite Hshape in Hshape'.
  exists (bmm [B] [B] [B] Sq Sk Dv (softmax_last s') v), (softmax_last s').
  split.
  { apply (sdpa_unfold _ _ _ mask s s'); try assumption.
    apply broadcast_shapes_refl. }
  split; [reflexivity |].
  rewrite softmax_last_shape. assumption.
Qed.

(** C5, as the code has it.  The function raises a [RuntimeError] and
    returns no output when [q] and [k] disagree on [d_k], or their batch
    dimensions do not broadcast, or the shape of the mask is not
    broadcast-compatible with the shape of the scores, or, with no mask or
    a mask broadcastable to the scores, [k] and [v] disagree on
    [seq_len_k] or the batch dimensions of the scores and [v] do not
    broadcast.  There is no up-front check: whenever [q] and [k] are
    compatible the scores are computed, and a mismatch of the mask or of
    [v] is met afterwards. *)
Theorem attention_shape_errors (q k v : tensor num)
    (mask : option (tensor num)) (bq bk bv : list nat)
    (Sq Sk Sv Dq Dk Dv : nat) :
  shape q = bq ++ [Sq; Dq] ->
  shape k = bk ++ [Sk; Dk] ->
  shape v = bv ++ [Sv; Dv] ->
  Dq <> Dk
  \/ broadcast_shapes bq bk = None
  \/ (exists bqk,
        broadcast_shapes bq bk = Some bqk /\
        ((exists m, mask = Some m /\
                    broadcast_shapes (shape m) (bqk ++ [Sq; Sk]) = None)
         \/ (mask_fits mask (bqk ++ [Sq; Sk]) /\
             (Sk <> Sv \/ broadcast_shapes bqk bv = None)))) ->
  (exists msg,
     scaled_dot_product_attention q k v mask = Err (RuntimeError msg)) /\
  (Dq = Dk -> broadcast_shapes bq bk <> None ->
   is_ok (attention_scores q k) = true).
Proof.
  intros Hq Hk Hv Hbad. split.
  2:{ intros <- HB. destruct (broadcast_shapes bq bk) as [bqk |] eqn:E;
        [| contradiction].
      destruct (attention_scores_shape q k bq bk bqk Sq Sk Dq Hq Hk E)
        as [s [Hs _]].
      rewrite Hs. reflexivity. }
  unfold scaled_dot_product_attention.
  destruct (Nat.eq_dec Dq Dk) as [<- | Hne].
  2:{ rewrite (attention_scores_key_dim_mismatch q k bq bk Sq Sk Dq Dk)
        by assumption.
      eexists. reflexivity. }
  destruct Hbad as [Hne | [HB | [bqk [HB Hrest]]]].
  - contradiction.
  - rewrite (attention_scores_batch_mismatch q k bq bk Sq Sk Dq)
      by assumption.
    eexists. reflexivity.
  - destruct (attention_scores_shape q k bq bk bqk Sq Sk Dq Hq Hk HB)
      as [s [Hs Hshape]].
    rewrite Hs. cbn [bind].
    destruct Hrest as [[m [-> Hm]] | [Hfit Hv']].
    + unfold apply_mask, masked_fill. cbn [teq0 tmap shape].
      rewrite Hshape, Hm. eexists. reflexivity.
    + rewrite <- Hshape in Hfit.
      destruct (apply_mask_data s mask Hfit) as [s' [Hm [Hshape' _]]].
      rewrite Hm. cbn [bind]. rewrite Hshape in Hshape'.
      destruct (Nat.eq_dec Sk Sv) as [<- | Hne].
      * destruct Hv' as [Hne | HBv]; [contradiction |].
        rewrite (matmul_batch_mismatch _ _ bqk bv Sq Sk Dv);
          [eexists; reflexivity | rewrite softmax_last_shape | |];
          assumption.
      * rewrite (matmul_inner_mismatch _ _ bqk bv Sq Sk Sv Dv);
          [eexists; reflexivity | rewrite softmax_last_shape | |];
          assumption.
Qed.

(** C5, as stated, fails twice.  A mask of shape [(1, 2, 1)] is not
    broadcastable to the scores' shape [(1, 1, 1)], yet no error is raised:
    the scores are expanded to the mask and a [(1, 2, 1)] result is
    returned.  And a [seq_len_k] mismatch between [k] and [v] is met only
    by the last product, after the scores have been computed. *)
Lemma attention_shape_check_counterexample :
  (expandable_to [1; 2; 1] [1; 1; 1] = false /\
   exists output weights,
     scaled_dot_product_attention
       (full [1; 1; 1] (Fin 1)) (full [1; 1; 1] (Fin 1))
       (full [1; 1; 1] (Fin 1)) (Some (full [1; 2; 1] (Fin 1)))
     = Ok (output, weights) /\
     shape output = [1; 2; 1] /\ shape weights = [1; 2; 1]) /\
  (exists scores,
     attention_scores (full [1; 1; 1] (Fin 1)) (full [1; 1; 1] (Fin 1))
     = Ok scores /\
     scaled_dot_product_attention
       (full [1; 1; 1] (Fin 1)) (full [1; 1; 1] (Fin 1))
       (full [1; 2; 1] (Fin 1)) None
     = Err (RuntimeError "matmul: shapes cannot be multiplied")).
Proof.
  split.
  - split; [reflexivity |].
    do 2 eexists. split; [reflexivity |]. split; reflexivity.
  - eexists. split; reflexivity.
Qed.

(** ** The model on the notebook's own cells *)

(** The last cell of sinusoidal-q7.ipynb calls
    [SinusoidalPositionalEmbedding(d_model, max_seq_len)] with
    [d_model = 64] and [max_seq_len = 100], that is [__init__(64, 100)],
    on positions of shape [(1, 50)]; its recorded output is
    [torch.Size([1, 50, 100])]. *)
Example notebook_recorded_shape :
  exists m h' out,
    SinusoidalPositionalEmbedding_init 64 100 empty_heap = Ok (m, h') /\
    forward m (full [1; 50] tt) h' = Ok (out, h') /\
    v_shape out = [1; 50; 100].
Proof.
  do 3 eexists. split; [reflexivity |]. split; reflexivity.
Qed.

(** A query of length 0 returns the empty slice of shape
    [(1, 0, d_model)]. *)
Example forward_length_zero :
  exists m h' out,
    SinusoidalPositionalEmbedding_init 100 64 empty_heap = Ok (m, h') /\
    forward m (full [1; 0] tt) h' = Ok (out, h') /\
    v_shape out = [1; 0; 64].
Proof.
  do 3 eexists. split; [reflexivity |]. split; reflexivity.
Qed.

(** [d_model = 0] fails in [-math.log(10000.0) / d_model]. *)
Example init_d_model_zero :
  SinusoidalPositionalEmbedding_init 3 0 empty_heap = Err ZeroDivisionError.
Proof. reflexivity. Qed.

(** A 1-D key has no last two axes to transpose. *)
Example attention_key_rank_1 :
  exists msg,
    scaled_dot_product_attention
      (full [2; 3] (Fin 1)) (full [3] (Fin 1)) (full [2; 3] (Fin 1)) None
    = Err (IndexError msg).
Proof. eexists. reflexivity. Qed.

(** ** The theorems at concrete inputs *)

Lemma attention_unmasked_contract_witness :
  exists output weights,
    scaled_dot_product_attention
      (full [1; 2; 2] (Fin 1)) (full [1; 2; 2] (Fin 1))
      (full [1; 2; 2] (Fin 1)) None
    = Ok (output, weights) /\
    shape weights = [1; 2; 2] /\
    shape output = [1; 2; 2] /\
    data weights ([0] ++ [0; 1])
    = contract_weight (full [1; 2; 2] (Fin 1)) (full [1; 2; 2] (Fin 1))
                      [1] [1] 2 2 None [0] 0 1.
Proof.
  destruct (attention_unmasked_contract
              (full [1; 2; 2] (Fin 1)) (full [1; 2; 2] (Fin 1))
              (full [1; 2; 2] (Fin 1))
              [1] [1] [1] [1] [1] 2 2 2 2)
    as [o [w [H1 [H2 [H3 [H4 _]]]]]];
    [reflexivity | reflexivity | reflexivity | reflexivity | reflexivity |].
  exists o, w. split; [exact H1 |]. split; [exact H2 |].
  split; [exact H3 |]. apply (H4 [0] 0 1).
Defined.

Lemma attention_mask_contract_witness :
  exists scores masked output weights,
    attention_scores (full [1; 1; 2] (Fin 1)) (full [1; 2; 2] (Fin 1))
    = Ok scores /\
    apply_mask scores
      (Some (mkTensor [1; 1; 2]
               (fun idx => if nth 2 idx 0 =? 0 then Fin 0 else Fin 1)))
    = Ok masked /\
    scaled_dot_product_attention
      (full [1; 1; 2] (Fin 1)) (full [1; 2; 2] (Fin 1))
      (full [1; 2; 1] (Fin 1))
      (Some (mkTensor [1; 1; 2]
               (fun idx => if nth 2 idx 0 =? 0 then Fin 0 else Fin 1)))
    = Ok (output, weights) /\
    weights = softmax_last masked /\
    data masked ([0] ++ [0; 0]) = NegInf /\
    data weights ([0] ++ [0; 0]) = Fin 0 /\
    data masked ([0] ++ [0; 1]) = data scores ([0] ++ [0; 1]).
Proof.
  destruct (attention_mask_contract
              (full [1; 1; 2] (Fin 1)) (full [1; 2; 2] (Fin 1))
              (full [1; 2; 1] (Fin 1))
              (mkTensor [1; 1; 2]
                 (fun idx => if nth 2 idx 0 =? 0 then Fin 0 else Fin 1))
              [1] [1] [1] [1] [1] 1 2 2 1)
    as [s [s' [o [w [H1 [H2 [H3 [H4 H5]]]]]]]];
    [reflexivity | reflexivity | reflexivity | reflexivity | reflexivity
     | reflexivity |].
  assert (Hb : valid_index [1] [0]) by (repeat constructor).
  assert (E0 : num_eq0 (Fin 0) = true)
    by (cbn; rewrite Rsgn_zero; reflexivity).
  assert (E1 : num_eq0 (Fin 1) = false)
    by (cbn; rewrite (Rsgn_pos 1 Rlt_0_1); reflexivity).
  destruct (H5 [0] 0 0 Hb Nat.lt_0_1 Nat.lt_0_2) as [Hm0 _].
  destruct (Hm0 E0) as [Hneg [Hzero _]].
  destruct (H5 [0] 0 1 Hb Nat.lt_0_1 Nat.lt_1_2) as [_ Hm1].
  exists s, s', o, w. split; [exact H1 |]. split; [exact H2 |].
  split; [exact H3 |]. split; [exact H4 |]. split; [exact Hneg |].
  split; [| exact (Hm1 E1)].
  apply Hzero.
  - exists 1. split; [exact Nat.lt_1_2 | exact E1].
  - intros j' Hj' _.
    destruct (attention_scores_data
                (full [1; 1; 2] (Fin 1)) (full [1; 2; 2] (Fin 1))
                [1] [1] [1] 1 2 2 eq_refl eq_refl eq_refl)
      as [t [Ht [_ Hd]]].
    rewrite H1 in Ht. inversion Ht; subst t.
    rewrite Hd. cbn [num_sum full data num_mul num_add].
    destruct (num_sqrt_float32_pos 2 Nat.lt_0_2) as [r [Hr Er]];
      [reflexivity |].
    rewrite Er, (num_div_Fin_pos _ r Hr). eauto.
Defined.


Lemma attention_shapes_witness :
  exists output weights,
    scaled_dot_product_attention
      (full [1; 3; 3] (Fin 1)) (full [1; 3; 3] (Fin 1))
      (full [1; 3; 3] (Fin 1)) None
    = Ok (output, weights) /\
    shape output = [1; 3; 3] /\
    shape weights = [1; 3; 3].
Proof.
  apply (attention_shapes _ _ _ None 1 3 3 3 3);
    [reflexivity | reflexivity | reflexivity | exact I].
Defined.

Lemma attention_shape_errors_witness :
  exists msg,
    scaled_dot_product_attention
      (full [1; 1; 2] (Fin 1)) (full [1; 1; 3] (Fin 1))
      (full [1; 1; 1] (Fin 1)) None
    = Err (RuntimeError msg).
Proof.
  apply (attention_shape_errors
           (full [1; 1; 2] (Fin 1)) (full [1; 1; 3] (Fin 1))
           (full [1; 1; 1] (Fin 1)) None [1] [1] [1] 1 1 1 2 3 1);
    [reflexivity | reflexivity | reflexivity | left; lia].
Defined.

Lemma positional_table_invariant_witness :
  exists m h' c,
    SinusoidalPositionalEmbedding_init 100 64 empty_heap = Ok (m, h') /\
    py_div (- ln 10000) 64 = Ok c /\
    shape (read_view h' (pe m)) = [Z.to_nat 100; Z.to_nat 64] /\
    data (read_view h' (pe m)) [3; 2 * 5] = num_sin (table_angle c 3 5) /\
    data (read_view h' (pe m)) [0; 2 * 5 + 1] = Fin 1.
Proof.
  assert (Hinit : exists m h',
            SinusoidalPositionalEmbedding_init 100 64 empty_heap
            = Ok (m, h'))
    by (do 2 eexists; reflexivity).
  destruct Hinit as [m [h' Hinit]].
  destruct (positional_table_invariant 100 64 empty_heap h' m Hinit)
    as [c [H1 [H2 [H3 [H4 _]]]]]; [lia | lia | reflexivity |].
  exists m, h', c. split; [exact Hinit |]. split; [exact H1 |].
  split; [exact H2 |]. split.
  - apply (H3 3 5); apply Nat.ltb_lt; reflexivity.
  - apply (H4 5). apply Nat.ltb_lt. reflexivity.
Defined.

Lemma forward_returns_prefix_witness :
  exists m h' out,
    SinusoidalPositionalEmbedding_init 100 64 empty_heap = Ok (m, h') /\
    forward m (full [1; 50] tt) h' = Ok (out, h') /\
    shape (read_view h' out) = [1; 50; Z.to_nat 64].
Proof.
  assert (Hinit : exists m h',
            SinusoidalPositionalEmbedding_init 100 64 empty_heap
            = Ok (m, h'))
    by (do 2 eexists; reflexivity).
  destruct Hinit as [m [h' Hinit]].
  destruct (forward_returns_prefix 100 64 empty_heap h' m
              (full [1; 50] tt) 50 Hinit) with (g := h')
    as [out [H1 [H2 _]]];
    [reflexivity | apply Nat.leb_le; reflexivity |].
  exists m, h', out. split; [exact Hinit |]. split; [exact H1 | exact H2].
Defined.

Lemma forward_frame_and_aliasing_witness :
  exists m h' out,
    SinusoidalPositionalEmbedding_init 2 2 empty_heap = Ok (m, h') /\
    forward m (full [1; 1] tt) h' = Ok (out, h') /\
    exists g',
      setitem out (scalar (Fin 7)) h' = Ok g' /\
      data (read_view g' (pe m)) [0; 1] = Fin 7.
Proof.
  assert (Hinit : exists m h',
            SinusoidalPositionalEmbedding_init 2 2 empty_heap = Ok (m, h'))
    by (do 2 eexists; reflexivity).
  destruct Hinit as [m [h' Hinit]].
  destruct (forward_frame_and_aliasing 2 2 empty_heap h' m
              (full [1; 1] tt) 1 Hinit)
    as [_ [out [H1 [_ H3]]]];
    [reflexivity | apply Nat.leb_le; reflexivity |].
  destruct (H3 h' (Fin 7)) as [g' [H4 H5]].
  exists m, h', out. split; [exact Hinit |]. split; [apply H1 |].
  exists g'. split; [exact H4 |].
  apply H5; apply Nat.ltb_lt; reflexivity.
Defined.

Lemma init_odd_d_model_fails_witness :
  SinusoidalPositionalEmbedding_init 4 3 empty_heap
  = Err (RuntimeError "setitem: expanded size must match existing size").
Proof.
  apply (init_odd_d_model_fails 4 3 empty_heap); [lia | lia | reflexivity].
Defined.

(* ================================================================== *)
(** * Part III: further properties of the two kernels *)
(* ================================================================== *)

(** ** The attention kernel with a mask *)

(** X1: the contract with a mask.  For a mask broadcastable to the scores
    the weights are the softmax of the masked scores and the output is the
    product of the weights and [v], entry by entry the [contract_weight]
    and [contract_output] of the contract, for whatever scalars the
    tensors hold. *)
Theorem attention_masked_contract
    (q k v m : tensor num) (bq bk bv bqk B : list nat)
    (Sq Sk Dk Dv : nat) :
  shape q = bq ++ [Sq; Dk] ->
  shape k = bk ++ [Sk; Dk] ->
  shape v = bv ++ [Sk; Dv] ->
  broadcast_shapes bq bk = Some bqk ->
  broadcast_shapes bqk bv = Some B ->
  expandable_to (shape m) (bqk ++ [Sq; Sk]) = true ->
  exists output weights,
    scaled_dot_product_attention q k v (Some m) = Ok (output, weights) /\
    shape weights = bqk ++ [Sq; Sk] /\
    shape output = B ++ [Sq; Dv] /\
    (forall b i j, valid_index bqk b -> i < Sq -> j < Sk ->
       data weights (b ++ [i; j])
       = contract_weight q k bq bk Sk Dk (Some m) b i j) /\
    (forall b i c, valid_index B b -> i < Sq ->
       data output (b ++ [i; c])
       = contract_output q k v bq bk bv bqk Sk Dk (Some m) b i c).
Proof.
  intros Hq Hk Hv Hqk HB Hfit.
  destruct (sdpa_num q k v (Some m) bq bk bv bqk B Sq Sk Dk Dv
              Hq Hk Hv Hqk HB Hfit)
    as [s [s' [Hs [Hrun [Hshape [Hshape' Hdata']]]]]].
  destruct (attention_scores_data q k bq bk bqk Sq Sk Dk Hq Hk Hqk)
    as [t [Ht [_ Hdata]]].
  rewrite Hs in Ht. inversion Ht; subst t.
  assert (Hw : forall b i j, valid_index bqk b -> i < Sq -> j < Sk ->
            data (softmax_last s') (b ++ [i; j])
            = contract_weight q k bq bk Sk Dk (Some m) b i j).
  { intros b i j Hb Hi Hj.
    rewrite (softmax_last_row s' bqk b Sq Sk i j Hshape').
    apply softmax_row_ext; [| assumption].
    intros l Hl.
    rewrite (Hdata' _ (valid_row_index bqk b Sq Sk i l Hb Hi Hl)).
    unfold contract_masked_score, contract_score.
    rewrite Hdata. reflexivity. }
  do 2 eexists. split; [exact Hrun |].
  split; [rewrite softmax_last_shape; assumption |].
  split; [reflexivity |].
  split; [exact Hw |].
  intros b i c Hb Hi.
  pose proof (expand_index_broadcast_valid bqk bv B b HB Hb) as Hb'.
  cbn [bmm data]. rewrite split_last2_app.
  unfold contract_output. apply num_sum_ext. intros l Hl.
  rewrite (Hw _ i l Hb' Hi Hl). reflexivity.
Qed.

(** X5: keys that are equal get equal weights.  Two keys of a batch whose
    rows of [k] hold the same scalars, and that are both masked or both
    unmasked for a query, have the same weight for that query. *)
Theorem attention_identical_keys_equal_weights
    (q k v : tensor num) (mask : option (tensor num))
    (bq bk bv bqk B : list nat) (Sq Sk Dk Dv : nat) :
  shape q = bq ++ [Sq; Dk] ->
  shape k = bk ++ [Sk; Dk] ->
  shape v = bv ++ [Sk; Dv] ->
  broadcast_shapes bq bk = Some bqk ->
  broadcast_shapes bqk bv = Some B ->
  mask_fits mask (bqk ++ [Sq; Sk]) ->
  exists output weights,
    scaled_dot_product_attention q k v mask = Ok (output, weights) /\
    forall b i j1 j2, valid_index bqk b -> i < Sq -> j1 < Sk -> j2 < Sk ->
      (forall l, l < Dk ->
         data k (expand_index bk b ++ [j1; l])
         = data k (expand_index bk b ++ [j2; l])) ->
      unmasked mask (b ++ [i; j1]) = unmasked mask (b ++ [i; j2]) ->
      data weights (b ++ [i; j1]) = data weights (b ++ [i; j2]).
Proof.
  intros Hq Hk Hv Hqk HB Hfit.
  destruct (sdpa_num q k v mask bq bk bv bqk B Sq Sk Dk Dv
              Hq Hk Hv Hqk HB Hfit)
    as [s [s' [Hs [Hrun [Hshape [Hshape' Hdata']]]]]].
  destruct (attention_scores_data q k bq bk bqk Sq Sk Dk Hq Hk Hqk)
    as [t [Ht [_ Hdata]]].
  rewrite Hs in Ht. inversion Ht; subst t.
  do 2 eexists. split; [exact Hrun |].
  intros b i j1 j2 Hb Hi Hj1 Hj2 Hkeys Hmask.
  rewrite (softmax_last_row s' bqk b Sq Sk i j1 Hshape').
  rewrite (softmax_last_row s' bqk b Sq Sk i j2 Hshape').
  apply softmax_row_same.
  rewrite (Hdata' _ (valid_row_index bqk b Sq Sk i j1 Hb Hi Hj1)).
  rewrite (Hdata' _ (valid_row_index bqk b Sq Sk i j2 Hb Hi Hj2)).
  rewrite Hmask, !Hdata.
  destruct (unmasked mask (b ++ [i; j2])); [| reflexivity].
  f_equal. apply num_sum_ext. intros l Hl. rewrite (Hkeys l Hl).
  reflexivity.
Qed.

(** X6: a row with a single unmasked key copies the value of that key.
    When the mask leaves one key of a row unmasked and the score of that
    key is finite, its weight is 1 and the other weights of the row are 0;
    where the entries of [v] are finite too, the output row is the row of
    [v] at that key. *)
Theorem attention_single_unmasked_key
    (q k v m : tensor num) (bq bk bv bqk B : list nat)
    (Sq Sk Dk Dv : nat) :
  shape q = bq ++ [Sq; Dk] ->
  shape k = bk ++ [Sk; Dk] ->
  shape v = bv ++ [Sk; Dv] ->
  broadcast_shapes bq bk = Some bqk ->
  broadcast_shapes bqk bv = Some B ->
  expandable_to (shape m) (bqk ++ [Sq; Sk]) = true ->
  exists scores output weights,
    attention_scores q k = Ok scores /\
    scaled_dot_product_attention q k v (Some m) = Ok (output, weights) /\
    (forall b i j0, valid_index bqk b -> i < Sq -> j0 < Sk ->
       (exists s, data scores (b ++ [i; j0]) = Fin s) ->
       (forall j, j < Sk ->
          num_eq0 (mask_at m (b ++ [i; j])) = negb (j =? j0)) ->
       forall j, j < Sk ->
         data weights (b ++ [i; j]) = Fin (if j =? j0 then 1 else 0)) /\
    (forall b i j0 c, valid_index B b -> i < Sq -> j0 < Sk ->
       (exists s, data scores (expand_index bqk b ++ [i; j0]) = Fin s) ->
       (forall j, j < Sk ->
          num_eq0 (mask_at m (expand_index bqk b ++ [i; j]))
          = negb (j =? j0)) ->
       (forall j, j < Sk ->
          exists r, data v (expand_index bv b ++ [j; c]) = Fin r) ->
       data output (b ++ [i; c]) = data v (expand_index bv b ++ [j0; c])).
Proof.
  intros Hq Hk Hv Hqk HB Hfit.
  destruct (sdpa_num q k v (Some m) bq bk bv bqk B Sq Sk Dk Dv
              Hq Hk Hv Hqk HB Hfit)
    as [s [s' [Hs [Hrun [Hshape [Hshape' Hdata']]]]]].
  assert (Hw : forall b i j0, valid_index bqk b -> i < Sq -> j0 < Sk ->
            (exists r, data s (b ++ [i; j0]) = Fin r) ->
            (forall j, j < Sk ->
               num_eq0 (mask_at m (b ++ [i; j])) = negb (j =? j0)) ->
            forall j, j < Sk ->
              data (softmax_last s') (b ++ [i; j])
              = Fin (if j =? j0 then 1 else 0)).
  { intros b i j0 Hb Hi Hj0 [r Hr] Hone j Hj.
    rewrite (softmax_last_row s' bqk b Sq Sk i j Hshape').
    apply (softmax_row_single Sk _ j0 r); try assumption.
    - rewrite (Hdata' _ (valid_row_index bqk b Sq Sk i j0 Hb Hi Hj0)).
      cbn [unmasked]. rewrite (Hone j0 Hj0), Nat.eqb_refl. exact Hr.
    - intros l Hl Hne.
      rewrite (Hdata' _ (valid_row_index bqk b Sq Sk i l Hb Hi Hl)).
      cbn [unmasked]. rewrite (Hone l Hl).
      apply Nat.eqb_neq in Hne. rewrite Hne. reflexivity. }
  exists s. do 2 eexists. split; [exact Hs |].
  split; [exact Hrun |]. split; [exact Hw |].
  intros b i j0 c Hb Hi Hj0 Hfin Hone Hv'.
  pose proof (expand_index_broadcast_valid bqk bv B b HB Hb) as Hb'.
  cbn [bmm data]. rewrite split_last2_app.
  assert (Hvr : exists f, forall l, l < Sk ->
            data v (expand_index bv b ++ [l; c]) = Fin (f l)).
  { clear - Hv'. induction Sk as [|n IH].
    - exists (fun _ => 0%R). intros; lia.
    - destruct IH as [f Hf]; [intros; apply Hv'; lia |].
      destruct (Hv' n) as [r Hr]; [lia |].
      exists (fun l => if l =? n then r else f l). intros l Hl.
      destruct (l =? n) eqn:E.
      + apply Nat.eqb_eq in E. subst l. exact Hr.
      + apply Nat.eqb_neq in E. apply Hf. lia. }
  destruct Hvr as [f Hf].
  rewrite (num_sum_Fin Sk _
             (fun l => (if l =? j0 then 1 else 0) * f l)%R).
  - rewrite (Rsum_single Sk _ j0 Hj0).
    + rewrite Nat.eqb_refl, (Hf j0 Hj0). f_equal. apply Rmult_1_l.
    + intros l _ Hne. apply Nat.eqb_neq in Hne. rewrite Hne.
      apply Rmult_0_l.
  - intros l Hl.
    rewrite (Hw _ i j0 Hb' Hi Hj0 Hfin Hone l Hl), (Hf l Hl). reflexivity.
Qed.

(** X7: a mask without a zero entry changes nothing.  With a mask
    broadcastable to the scores whose entries are all non-zero, weights
    and output are, entry by entry, those of the call without a mask. *)
Theorem attention_mask_without_zeros
    (q k v m : tensor num) (bq bk bv bqk B : list nat)
    (Sq Sk Dk Dv : nat) :
  shape q = bq ++ [Sq; Dk] ->
  shape k = bk ++ [Sk; Dk] ->
  shape v = bv ++ [Sk; Dv] ->
  broadcast_shapes bq bk = Some bqk ->
  broadcast_shapes bqk bv = Some B ->
  expandable_to (shape m) (bqk ++ [Sq; Sk]) = true ->
  (forall idx, valid_index (bqk ++ [Sq; Sk]) idx ->
     num_eq0 (mask_at m idx) = false) ->
  exists o1 w1 o2 w2,
    scaled_dot_product_attention q k v (Some m) = Ok (o1, w1) /\
    scaled_dot_product_attention q k v None = Ok (o2, w2) /\
    shape w1 = shape w2 /\ shape o1 = shape o2 /\
    (forall b i j, valid_index bqk b -> i < Sq -> j < Sk ->
       data w1 (b ++ [i; j]) = data w2 (b ++ [i; j])) /\
    (forall b i c, valid_index B b -> i < Sq ->
       data o1 (b ++ [i; c]) = data o2 (b ++ [i; c])).
Proof.
  intros Hq Hk Hv Hqk HB Hfit Hnz.
  destruct (sdpa_num q k v (Some m) bq bk bv bqk B Sq Sk Dk Dv
              Hq Hk Hv Hqk HB Hfit)
    as [s [s1 [Hs [Hrun1 [Hshape [Hshape1 Hdata1]]]]]].
  destruct (sdpa_num q k v None bq bk bv bqk B Sq Sk Dk Dv
              Hq Hk Hv Hqk HB I)
    as [t [s2 [Ht [Hrun2 [_ [Hshape2 Hdata2]]]]]].
  rewrite Hs in Ht. inversion Ht; subst t.
  assert (Hw : forall b i j, valid_index bqk b -> i < Sq -> j < Sk ->
            data (softmax_last s1) (b ++ [i; j])
            = data (softmax_last s2) (b ++ [i; j])).
  { intros b i j Hb Hi Hj.
    rewrite (softmax_last_row s1 bqk b Sq Sk i j Hshape1).
    rewrite (softmax_last_row s2 bqk b Sq Sk i j Hshape2).
    apply softmax_row_ext; [| assumption].
    intros l Hl.
    pose proof (valid_row_index bqk b Sq Sk i l Hb Hi Hl) as Hidx.
    rewrite (Hdata1 _ Hidx), (Hdata2 _ Hidx).
    cbn [unmasked]. rewrite (Hnz _ Hidx). reflexivity. }
  do 4 eexists. split; [exact Hrun1 |]. split; [exact Hrun2 |].
  split; [rewrite !softmax_last_shape; congruence |].
  split; [reflexivity |].
  split; [exact Hw |].
  intros b i c Hb Hi.
  pose proof (expand_index_broadcast_valid bqk bv B b HB Hb) as Hb'.
  cbn [bmm data]. rewrite split_last2_app.
  apply num_sum_ext. intros l Hl.
  rewrite (Hw _ i l Hb' Hi Hl). reflexivity.
Qed.

(** X8: a fully masked row is [NaN].  Whatever the scalars of [q], [k]
    and [v], when every key of a row is masked all the weights of the row
    are [NaN], and so is the output row computed from it. *)
Theorem attention_fully_masked_row_nan
    (q k v m : tensor num) (bq bk bv bqk B : list nat)
    (Sq Sk Dk Dv : nat) :
  shape q = bq ++ [Sq; Dk] ->
  shape k = bk ++ [Sk; Dk] ->
  shape v = bv ++ [Sk; Dv] ->
  broadcast_shapes bq bk = Some bqk ->
  broadcast_shapes bqk bv = Some B ->
  expandable_to (shape m) (bqk ++ [Sq; Sk]) = true ->
  exists output weights,
    scaled_dot_product_attention q k v (Some m) = Ok (output, weights) /\
    (forall b i, valid_index bqk b -> i < Sq ->
       (forall j, j < Sk -> num_eq0 (mask_at m (b ++ [i; j])) = true) ->
       forall j, j < Sk -> data weights (b ++ [i; j]) = NaN) /\
    (forall b i c, valid_index B b -> i < Sq -> 0 < Sk ->
       (forall j, j < Sk ->
          num_eq0 (mask_at m (expand_index bqk b ++ [i; j])) = true) ->
       data output (b ++ [i; c]) = NaN).
Proof.
  intros Hq Hk Hv Hqk HB Hfit.
  destruct (sdpa_num q k v (Some m) bq bk bv bqk B Sq Sk Dk Dv
              Hq Hk Hv Hqk HB Hfit)
    as [s [s' [Hs [Hrun [Hshape [Hshape' Hdata']]]]]].
  assert (Hw : forall b i, valid_index bqk b -> i < Sq ->
            (forall j, j < Sk ->
               num_eq0 (mask_at m (b ++ [i; j])) = true) ->
            forall j, j < Sk ->
              data (softmax_last s') (b ++ [i; j]) = NaN).
  { intros b i Hb Hi Hall j Hj.
    rewrite (softmax_last_row s' bqk b Sq Sk i j Hshape').
    apply softmax_row_nan; [| assumption].
    intros l Hl. right.
    rewrite (Hdata' _ (valid_row_index bqk b Sq Sk i l Hb Hi Hl)).
    cbn [unmasked]. rewrite (Hall l Hl). reflexivity. }
  do 2 eexists. split; [exact Hrun |]. split; [exact Hw |].
  intros b i c Hb Hi HSk Hall.
  pose proof (expand_index_broadcast_valid bqk bv B b HB Hb) as Hb'.
  cbn [bmm data]. rewrite split_last2_app.
  apply (num_sum_nan Sk _ 0 HSk).
  rewrite (Hw _ i Hb' Hi Hall 0 HSk). reflexivity.
Qed.

(** X9: an empty key dimension gives [NaN].  With [d_k = 0] every score
    is [0 / sqrt 0], so with or without a mask every weight is [NaN]. *)
Theorem attention_zero_key_dim_nan
    (q k v : tensor num) (mask : option (tensor num))
    (bq bk bv bqk B : list nat) (Sq Sk Dv : nat) :
  shape q = bq ++ [Sq; 0] ->
  shape k = bk ++ [Sk; 0] ->
  shape v = bv ++ [Sk; Dv] ->
  broadcast_shapes bq bk = Some bqk ->
  broadcast_shapes bqk bv = Some B ->
  mask_fits mask (bqk ++ [Sq; Sk]) ->
  exists output weights,
    scaled_dot_product_attention q k v mask = Ok (output, weights) /\
    forall b i j, valid_index bqk b -> i < Sq -> j < Sk ->
      data weights (b ++ [i; j]) = NaN.
Proof.
  intros Hq Hk Hv Hqk HB Hfit.
  destruct (sdpa_num q k v mask bq bk bv bqk B Sq Sk 0 Dv
              Hq Hk Hv Hqk HB Hfit)
    as [s [s' [Hs [Hrun [Hshape [Hshape' Hdata']]]]]].
  destruct (attention_scores_data q k bq bk bqk Sq Sk 0 Hq Hk Hqk)
    as [t [Ht [_ Hdata]]].
  rewrite Hs in Ht. inversion Ht; subst t.
  assert (Hnan : forall b i j, data s (b ++ [i; j]) = NaN).
  { intros b i j. rewrite Hdata, float32_of_nat_0.
    cbn [num_sum num_sqrt].
    rewrite Rsgn_zero, sqrt_0. cbn [num_div].
    rewrite Rsgn_zero. reflexivity. }
  do 2 eexists. split; [exact Hrun |].
  intros b i j Hb Hi Hj.
  rewrite (softmax_last_row s' bqk b Sq Sk i j Hshape').
  apply softmax_row_nan; [| assumption].
  intros l Hl.
  rewrite (Hdata' _ (valid_row_index bqk b Sq Sk i l Hb Hi Hl)).
  destruct (unmasked mask (b ++ [i; l])); [left; apply Hnan | right].
  reflexivity.
Qed.

(** ** Ranks *)

Lemma split_last_nonempty {A : Type} (l : list A) :
  l <> [] -> exists p z, split_last l = Some (p, z).
Proof.
  induction l as [|x l IH]; intros H; [contradiction |]. simpl.
  destruct (split_last l) as [[p z] |]; eauto.
Qed.

Lemma split_last2_short {A : Type} (l : list A) :
  List.length l < 2 -> split_last2 l = None.
Proof.
  destruct l as [|x [|y l]]; simpl; intros H; try reflexivity. lia.
Qed.

(** X10: tensors that lack the axes the function names are refused.  A 0-d
    query fails at [q.shape[-1]]; otherwise a key with fewer than two axes
    fails at [k.transpose(-2, -1)].  Both are [IndexError]s. *)
Theorem attention_rank_errors (q k v : tensor num)
    (mask : option (tensor num)) :
  (shape q = [] ->
   scaled_dot_product_attention q k v mask
   = Err (IndexError "tuple index out of range")) /\
  (shape q <> [] -> List.length (shape k) < 2 ->
   scaled_dot_product_attention q k v mask
   = Err (IndexError "transpose: dimension out of range")).
Proof.
  unfold scaled_dot_product_attention, attention_scores, shape_last,
    transpose_last2.
  split.
  - intros Hq. rewrite Hq. reflexivity.
  - intros Hq Hk.
    destruct (split_last_nonempty _ Hq) as [p [z E]]. rewrite E.
    cbn [bind]. rewrite (split_last2_short _ Hk). reflexivity.
Qed.

(** [torch.matmul] of a vector and a matrix. *)
Lemma matmul_vector_matrix (a b : tensor num) (m p : nat) :
  shape a = [m] ->
  shape b = [m; p] ->
  matmul a b = Ok (squeeze_last2 (bmm [] [] [] 1 m p (unsqueeze 0 a) b)).
Proof.
  intros Ha Hb. unfold matmul. rewrite Ha, Hb.
  cbn [List.length Nat.eqb unsqueeze shape firstn skipn app].
  rewrite Ha, Hb. cbn [split_last2 split_last].
  rewrite Nat.eqb_refl. reflexivity.
Qed.

(** X11: a single unbatched query vector is accepted.  For [q] of shape
    [(d_k)], [k] of shape [(seq_len_k, d_k)] and [v] of shape
    [(seq_len_k, d_v)], the weights have shape [(seq_len_k)] and are the
    softmax of the scaled dot products of [q] with the keys, and the output
    has shape [(d_v)]. *)
Theorem attention_vector_query (q k v : tensor num) (Sk Dk Dv : nat) :
  shape q = [Dk] ->
  shape k = [Sk; Dk] ->
  shape v = [Sk; Dv] ->
  exists output weights,
    scaled_dot_product_attention q k v None = Ok (output, weights) /\
    shape output = [Dv] /\
    shape weights = [Sk] /\
    forall j,
      data weights [j]
      = softmax_row Sk
          (fun j' =>
             num_div
               (num_sum Dk (fun l =>
                  num_mul (data q [l]) (data k [j'; l])))
               (num_sqrt (float32_of_nat Dk))) j.
Proof.
  intros Hq Hk Hv.
  unfold scaled_dot_product_attention, attention_scores, shape_last,
    transpose_last2.
  rewrite Hq, Hk. cbn [split_last split_last2 bind app].
  rewrite (matmul_vector_matrix q _ Dk Sk Hq) by reflexivity.
  cbn [bind apply_mask].
  rewrite (matmul_vector_matrix _ v Sk Dv) by (try assumption; reflexivity).
  do 2 eexists. split; [reflexivity |].
  split; [reflexivity |]. split; [reflexivity |].
  intros j.
  cbn [softmax_last shape tdiv_scalar tmap squeeze_last2 bmm split_last2
       split_last app data].
  apply softmax_row_ext_all. intros l.
  cbn [unsqueeze data firstn skipn app]. f_equal.
Qed.

(** X12: a mask larger than the scores enlarges the result.  The scores are
    expanded to the common broadcast shape of mask and scores, and this
    shape, not that of [q k^T], is the shape of the weights and decides the
    shape of the output. *)
Theorem attention_mask_broadcasts_scores
    (q k v m : tensor num) (bq bk bv bqk bs B : list nat)
    (Sq Sk Dk Dv n Sv : nat) :
  shape q = bq ++ [Sq; Dk] ->
  shape k = bk ++ [Sk; Dk] ->
  broadcast_shapes bq bk = Some bqk ->
  broadcast_shapes (shape m) (bqk ++ [Sq; Sk]) = Some (bs ++ [n; Sv]) ->
  shape v = bv ++ [Sv; Dv] ->
  broadcast_shapes bs bv = Some B ->
  exists output weights,
    scaled_dot_product_attention q k v (Some m) = Ok (output, weights) /\
    shape weights = bs ++ [n; Sv] /\
    shape output = B ++ [n; Dv].
Proof.
  intros Hq Hk Hqk Hm Hv HB.
  destruct (attention_scores_shape q k bq bk bqk Sq Sk Dk Hq Hk Hqk)
    as [s [Hs Hshape]].
  assert (Hmask : exists s',
            apply_mask s (Some m) = Ok s' /\ shape s' = bs ++ [n; Sv]).
  { unfold apply_mask, masked_fill. cbn [teq0 tmap shape].
    rewrite Hshape, Hm. eexists. split; reflexivity. }
  destruct Hmask as [s' [Hs' Hshape']].
  do 2 eexists. split.
  { apply (sdpa_unfold _ _ _ (Some m) s s' bs bv B n Sv Dv); assumption. }
  split; [rewrite softmax_last_shape; assumption | reflexivity].
Qed.

(** ** Construction: refused sizes, the one-column table, the frame *)

(** A negative size is refused by the allocation of the table. *)
Lemma init_negative_size (max_seq_len d_model : Z) (h : heap) :
  (max_seq_len < 0 \/ d_model < 0)%Z ->
  SinusoidalPositionalEmbedding_init max_seq_len d_model h
  = Err (RuntimeError "zeros: negative dimension").
Proof.
  intros Hneg. unfold SinusoidalPositionalEmbedding_init, zeros.
  cbn [forallb].
  destruct (0 <=? max_seq_len)%Z eqn:EM; [| reflexivity].
  destruct (0 <=? d_model)%Z eqn:Ed; [| reflexivity].
  apply Z.leb_le in EM. apply Z.leb_le in Ed. lia.
Qed.

(** [d_model = 0] is refused by the division in
    [-math.log(10000.0) / d_model], once the (empty) table is allocated. *)
Lemma init_zero_d_model (max_seq_len : Z) (h : heap) :
  (0 <= max_seq_len)%Z ->
  SinusoidalPositionalEmbedding_init max_seq_len 0 h = Err ZeroDivisionError.
Proof.
  intros HM. unfold SinusoidalPositionalEmbedding_init, zeros.
  cbn [forallb]. rewrite (proj2 (Z.leb_le 0 max_seq_len) HM).
  reflexivity.
Qed.

(** A source of one column is expanded to a destination of no column. *)
Lemma setitem_into_no_column (dst : view) (src : tensor num) (g : heap)
    (n : nat) :
  v_shape dst = [n; 0] ->
  shape src = [n; 1] ->
  exists f, setitem dst src g = Ok (write_view g dst f).
Proof.
  intros Hd Hs. unfold setitem, strip_leading_ones. rewrite Hd, Hs.
  cbn [list_nat_eqb shape List.length].
  rewrite Nat.eqb_refl. cbn [Nat.eqb andb].
  unfold expandable_to.
  destruct n as [|[|n]];
    cbn [leading_ones skipn rev app expandable_rev Nat.eqb orb andb];
    rewrite ?Nat.eqb_refl; eexists; reflexivity.
Qed.

Lemma write_view_no_column (g : heap) (dst : view) (f : list nat -> num)
    (n sid off : nat) :
  v_shape dst = [n; 0] ->
  cells (write_view g dst f) sid off = cells g sid off.
Proof.
  intros Hd. apply write_view_miss. intros idx' Hv. rewrite Hd in Hv.
  apply valid_index_2d in Hv. destruct Hv as [p [i [_ [_ Hi]]]]. lia.
Qed.

(** Construction with [d_model = 1]: the cosine assignment addresses the
    empty slice [pe[:, 1::2]] and writes nothing. *)
Lemma init_one_column (max_seq_len : Z) (h : heap) :
  (0 <= max_seq_len)%Z ->
  exists m h',
    SinusoidalPositionalEmbedding_init max_seq_len 1 h = Ok (m, h') /\
    shape (read_view h' (pe m)) = [Z.to_nat max_seq_len; 1] /\
    forall p, p < Z.to_nat max_seq_len ->
      data (read_view h' (pe m)) [p; 0] = num_sin (float32_of_nat p).
Proof.
  intros HM.
  unfold SinusoidalPositionalEmbedding_init, zeros.
  cbn [forallb map].
  rewrite (proj2 (Z.leb_le 0 max_seq_len) HM).
  change (0 <=? 1)%Z with true.
  cbn [andb bind fst snd]. unfold py_div.
  change (1 =? 0)%Z with false. cbn [bind].
  change (Z.to_nat 1) with (2 * 0 + 1).
  set (n := Z.to_nat max_seq_len). set (c := (- ln 10000 / 1)%R).
  destruct (init_angles n (2 * 0 + 1) c) as [angles [Ha [Hshape Hdata]]].
  rewrite Ha. cbn [bind].
  rewrite div2_odd in Hshape, Hdata.
  rewrite slice_even_columns_odd, slice_odd_columns_odd.
  rewrite setitem_same_shape by (symmetry; exact Hshape).
  cbn [bind].
  match goal with
  | |- context [setitem ?dst ?src ?g] =>
      destruct (setitem_into_no_column dst src g n) as [f Hf];
        [reflexivity | exact Hshape |]
  end.
  rewrite Hf. cbn [bind].
  do 2 eexists. split; [reflexivity |].
  split; [reflexivity |].
  intros p Hp. unfold read_view. cbn [data pe v_storage].
  rewrite (write_view_no_column _ _ _ n) by reflexivity.
  set (sinv := mkView (next_id h) 0 [n; 0 + 1] [(2 * 0 + 1) * 1; 2]).
  match goal with
  | |- cells _ _ ?off = _ =>
      replace off with (offset_of sinv [p; 0])
        by (unfold offset_of;
            cbn [sinv v_offset v_strides dot contiguous_strides fold_right];
            lia)
  end.
  change (next_id h) with (v_storage sinv) at 2.
  rewrite write_view_hit.
  - cbn [tmap data]. rewrite (Hdata p 0 Hp) by lia.
    rewrite table_angle_col0. reflexivity.
  - unfold valid_index. cbn [sinv v_shape].
    constructor; [assumption | constructor; [lia | constructor]].
  - intros idx' Hv E. apply valid_index_2d in Hv.
    destruct Hv as [p' [i' [-> [_ Hi']]]].
    unfold offset_of in E. cbn [sinv v_offset v_strides dot] in E.
    f_equal; [| f_equal]; lia.
Qed.

Lemma setitem_inv (dst : view) (src : tensor num) (g g' : heap) :
  setitem dst src g = Ok g' -> exists f, g' = write_view g dst f.
Proof.
  unfold setitem.
  destruct (list_nat_eqb (v_shape dst) (shape src)).
  { intros E. inversion E. eauto. }
  destruct (List.length (shape src) =? 0).
  { intros E. inversion E. eauto. }
  destruct (expandable_to _ _); intros E; inversion E. eauto.
Qed.

(** The frame of a construction. *)
Lemma init_frame (max_seq_len d_model : Z)
    (h h' : heap) (m : SinusoidalPositionalEmbedding) :
  SinusoidalPositionalEmbedding_init max_seq_len d_model h = Ok (m, h') ->
  v_storage (pe m) = next_id h /\
  next_id h' = S (next_id h) /\
  forall sid off, sid <> next_id h -> cells h' sid off = cells h sid off.
Proof.
  unfold SinusoidalPositionalEmbedding_init, zeros. cbn [forallb].
  destruct (0 <=? max_seq_len)%Z; [| discriminate].
  destruct (0 <=? d_model)%Z; [| discriminate].
  cbn [andb bind fst snd map].
  destruct (py_div _ _); cbn [bind]; [| discriminate].
  destruct (tmul _ _); cbn [bind]; [| discriminate].
  destruct (setitem _ _ _) as [h1 |] eqn:E1; cbn [bind]; [| discriminate].
  destruct (setitem _ _ h1) as [h2 |] eqn:E2; cbn [bind]; [| discriminate].
  intros E. inversion E; subst m h'. clear E.
  apply setitem_inv in E1. destruct E1 as [f1 ->].
  apply setitem_inv in E2. destruct E2 as [f2 ->].
  split; [reflexivity |]. split; [reflexivity |].
  intros sid off Hne.
  rewrite !write_view_other by exact Hne.
  cbn [cells]. apply Nat.eqb_neq in Hne. rewrite Hne. reflexivity.
Qed.

(** X15: the construction allocates one storage and touches no other.
    The table lives in the storage that was free, the next free storage
    moves by one, and every storage that existed keeps its content. *)
Theorem init_allocates_one_storage (max_seq_len d_model : Z)
    (h h' : heap) (m : SinusoidalPositionalEmbedding) :
  SinusoidalPositionalEmbedding_init max_seq_len d_model h = Ok (m, h') ->
  v_storage (pe m) = next_id h /\
  next_id h' = S (next_id h) /\
  forall sid off, sid <> next_id h -> cells h' sid off = cells h sid off.
Proof. apply init_frame. Qed.

(** X16: two tables do not share storage.  Constructing a second module
    leaves every entry of the table of the first one as it was. *)
Theorem init_twice_independent (M1 d1 M2 d2 : Z) (h h1 h2 : heap)
    (m1 m2 : SinusoidalPositionalEmbedding) :
  SinusoidalPositionalEmbedding_init M1 d1 h = Ok (m1, h1) ->
  SinusoidalPositionalEmbedding_init M2 d2 h1 = Ok (m2, h2) ->
  v_storage (pe m1) <> v_storage (pe m2) /\
  forall idx,
    data (read_view h2 (pe m1)) idx = data (read_view h1 (pe m1)) idx.
Proof.
  intros H1 H2.
  destruct (init_frame _ _ _ _ _ H1) as [S1 [N1 _]].
  destruct (init_frame _ _ _ _ _ H2) as [S2 [_ F2]].
  split; [lia |].
  intros idx. unfold read_view. cbn [data].
  apply F2. lia.
Qed.

(** ** The query: bad ranks, clamping, writes through the result *)

(** X20: a query tensor with fewer than two axes is refused at
    [x.shape[1]]. *)
Theorem forward_rank_error {A : Type} (m : SinusoidalPositionalEmbedding)
    (x : tensor A) (g : heap) :
  List.length (shape x) < 2 ->
  forward m x g = Err (IndexError "tuple index out of range").
Proof.
  intros Hlen. unfold forward, shape_at.
  destruct (shape x) as [|a [|b l]]; simpl in *; try reflexivity. lia.
Qed.

(** X21: a write through the result of a query stays within the rows it
    was given.  Whatever the caller assigns to the returned tensor, the
    rows of [pe] from [x.shape[1]] on, and every other storage, are
    unchanged. *)
Theorem forward_write_leaves_rest {A : Type} (max_seq_len d_model : Z)
    (h h' g g' : heap) (m : SinusoidalPositionalEmbedding) (x : tensor A)
    (n : nat) (out : view) (src : tensor num) :
  SinusoidalPositionalEmbedding_init max_seq_len d_model h = Ok (m, h') ->
  shape_at x 1 = Ok n ->
  forward m x g = Ok (out, g) ->
  setitem out src g = Ok g' ->
  (forall p j, n <= p -> j < Z.to_nat d_model ->
     data (read_view g' (pe m)) [p; j] = data (read_view g (pe m)) [p; j]) /\
  (forall sid off, sid <> v_storage (pe m) ->
     cells g' sid off = cells g sid off).
Proof.
  intros Hinit Hn Hfwd Hset.
  destruct (init_inv _ _ _ _ _ Hinit) as [_ [_ Hpe]].
  rewrite (forward_view m x g _ n _ _ Hpe Hn) in Hfwd.
  inversion Hfwd; subst out. clear Hfwd.
  apply setitem_inv in Hset. destruct Hset as [f ->].
  rewrite Hpe. split.
  - intros p j Hp Hj. unfold read_view. cbn [data v_storage].
    apply write_view_miss. intros idx' Hv. cbn [v_shape] in Hv.
    apply valid_index_3d in Hv.
    destruct Hv as [z [p' [j' [-> [Hz [Hp' Hj']]]]]].
    unfold offset_of. cbn [v_offset v_strides dot]. intros E.
    assert (z = 0) by lia. subst z.
    destruct (offset_2d_inj p p' j j' (Z.to_nat d_model)) as [-> _];
      try lia.
  - intros sid off Hne. apply write_view_other. exact Hne.
Qed.

(** ** The content of the table *)

Lemma channel_pair (c h0 : nat) :
  c < 2 * h0 -> exists i, i < h0 /\ (c = 2 * i \/ c = 2 * i + 1).
Proof.
  intros Hc. destruct (Nat.Even_or_Odd c) as [[i Hi] | [i Hi]];
    exists i; split; try lia; auto.
Qed.

(** X18: the table does not depend on [max_seq_len].  Two tables built
    with the same positive even [d_model], whatever their lengths and the
    heaps they were built in, agree at every position they both have. *)
Theorem positional_table_prefix (M1 M2 d_model : Z) (h1 h2 g1 g2 : heap)
    (m1 m2 : SinusoidalPositionalEmbedding) :
  SinusoidalPositionalEmbedding_init M1 d_model h1 = Ok (m1, g1) ->
  SinusoidalPositionalEmbedding_init M2 d_model h2 = Ok (m2, g2) ->
  (0 < d_model)%Z -> Z.even d_model = true ->
  forall p c, p < Z.to_nat M1 -> p < Z.to_nat M2 -> c < Z.to_nat d_model ->
    data (read_view g1 (pe m1)) [p; c] = data (read_view g2 (pe m2)) [p; c].
Proof.
  intros H1 H2 Hd He p c Hp1 Hp2 Hc.
  destruct (even_to_nat d_model Hd He) as [h0 [Eh0 Hh0]].
  rewrite Eh0 in Hc.
  destruct (channel_pair c h0 Hc) as [i [Hi Hci]].
  destruct (init_even_read _ _ _ _ _ h0 H1 Hd Eh0 p i Hp1 Hi) as [Hs1 Hc1].
  destruct (init_even_read _ _ _ _ _ h0 H2 Hd Eh0 p i Hp2 Hi) as [Hs2 Hc2].
  destruct Hci as [-> | ->]; congruence.
Qed.

(** ** When the construction succeeds *)

Lemma init_odd_fails (max_seq_len d_model : Z) (h : heap) :
  (0 <= max_seq_len)%Z -> (3 <= d_model)%Z -> Z.odd d_model = true ->
  is_ok (SinusoidalPositionalEmbedding_init max_seq_len d_model h) = false.
Proof.
  intros HM Hd Ho.
  assert (Hk : exists k, Z.to_nat d_model = 2 * S k + 1).
  { apply Z.odd_spec in Ho. destruct Ho as [j Hj].
    exists (Z.to_nat j - 1). lia. }
  destruct Hk as [k Hk].
  unfold SinusoidalPositionalEmbedding_init, zeros.
  cbn [forallb map].
  rewrite (proj2 (Z.leb_le 0 max_seq_len) HM).
  rewrite (proj2 (Z.leb_le 0 d_model)) by lia.
  cbn [andb bind fst snd]. unfold py_div.
  rewrite (proj2 (Z.eqb_neq d_model 0)) by lia.
  cbn [bind]. rewrite Hk.
  set (n := Z.to_nat max_seq_len). set (c := (- ln 10000 / IZR d_model)%R).
  destruct (init_angles n (2 * S k + 1) c) as [angles [Ha [Hshape _]]].
  rewrite Ha. cbn [bind].
  rewrite div2_odd in Hshape.
  rewrite slice_even_columns_odd, slice_odd_columns_odd.
  rewrite setitem_same_shape by (symmetry; exact Hshape).
  cbn [bind].
  rewrite (setitem_one_column_short _ _ _ n k);
    [reflexivity | reflexivity |].
  cbn [tmap shape]. rewrite Hshape. f_equal. f_equal. lia.
Qed.

(** X13: the construction succeeds only on a non-negative [max_seq_len]
    with [d_model = 1] or [d_model] positive and even.  Every other pair of
    integers raises: a negative size, [d_model = 0], an odd
    [d_model >= 3]. *)
Theorem init_succeeds_only_if (max_seq_len d_model : Z) (h : heap) :
  is_ok (SinusoidalPositionalEmbedding_init max_seq_len d_model h) = true
  -> (0 <= max_seq_len /\
      (d_model = 1 \/ (0 < d_model /\ Z.even d_model = true)))%Z.
Proof.
  intros Hok.
  destruct (Z.lt_ge_cases max_seq_len 0) as [HM | HM].
  { rewrite init_negative_size in Hok by (left; exact HM). discriminate. }
  destruct (Z.lt_ge_cases d_model 0) as [Hd | Hd].
  { rewrite init_negative_size in Hok by (right; exact Hd). discriminate. }
  destruct (Z.eq_dec d_model 0) as [-> | Hd0].
  { rewrite init_zero_d_model in Hok by exact HM. discriminate. }
  split; [exact HM |].
  destruct (Z.even d_model) eqn:He; [right; split; [lia | reflexivity] |].
  left.
  destruct (Z.eq_dec d_model 1) as [E | Hd1]; [exact E | exfalso].
  destruct (Z.eq_dec d_model 2) as [-> | Hd2]; [discriminate He |].
  rewrite init_odd_fails in Hok; [discriminate | exact HM | lia |].
  rewrite <- Z.negb_even, He. reflexivity.
Qed.

(** X14: [d_model = 1] builds a table with the sine column only.  A
    construction with [d_model = 1] that succeeds stores a table of shape
    [(max_seq_len, 1)] whose entry [pe[p, 0]] is the sine of the float32
    value of [p]; no cosine is stored. *)
Theorem init_d_model_one (max_seq_len : Z) (h h' : heap)
    (m : SinusoidalPositionalEmbedding) :
  SinusoidalPositionalEmbedding_init max_seq_len 1 h = Ok (m, h') ->
  shape (read_view h' (pe m)) = [Z.to_nat max_seq_len; 1] /\
  forall p, p < Z.to_nat max_seq_len ->
    data (read_view h' (pe m)) [p; 0] = num_sin (float32_of_nat p).
Proof.
  intros Hinit.
  destruct (init_inv _ _ _ _ _ Hinit) as [HM _].
  destruct (init_one_column max_seq_len h HM) as [m1 [h1 [H1 H2]]].
  rewrite Hinit in H1. inversion H1; subst m1 h1. exact H2.
Qed.

(** X19: a query of any length returns the rows the table has.  The
    length [x.shape[1]] is clamped to [max_seq_len]: the result has shape
    [(1, min(x.shape[1], max_seq_len), d_model)] and holds the first rows
    of [pe]; nothing is raised. *)
Theorem forward_any_length {A : Type} (max_seq_len d_model : Z)
    (h h' : heap) (m : SinusoidalPositionalEmbedding) (x : tensor A)
    (n : nat) :
  SinusoidalPositionalEmbedding_init max_seq_len d_model h = Ok (m, h') ->
  shape_at x 1 = Ok n ->
  forall g, exists out,
    forward m x g = Ok (out, g) /\
    shape (read_view g out)
    = [1; Nat.min n (Z.to_nat max_seq_len); Z.to_nat d_model] /\
    forall p c, p < Nat.min n (Z.to_nat max_seq_len) ->
      c < Z.to_nat d_model ->
      data (read_view g out) [0; p; c] = data (read_view g (pe m)) [p; c].
Proof.
  intros Hinit Hn g.
  destruct (init_inv _ _ _ _ _ Hinit) as [_ [_ Hpe]].
  eexists. split; [apply (forward_view m x g _ n _ _ Hpe Hn) |].
  split; [reflexivity |].
  intros p c Hp Hc. rewrite Hpe.
  unfold read_view, offset_of.
  cbn [data v_offset v_strides v_storage dot]. f_equal. lia.
Qed.

(** ** The further properties at concrete inputs *)

Lemma attention_masked_contract_witness :
  exists output weights,
    scaled_dot_product_attention
      (full [1; 1; 2] (Fin 1)) (full [1; 2; 2] (Fin 1))
      (full [1; 2; 1] (Fin 1))
      (Some (mkTensor [1; 1; 2]
               (fun idx => if nth 2 idx 0 =? 0 then Fin 0 else Fin 1)))
    = Ok (output, weights) /\
    shape weights = [1; 1; 2] /\
    data weights ([0] ++ [0; 1])
    = contract_weight
        (full [1; 1; 2] (Fin 1)) (full [1; 2; 2] (Fin 1)) [1] [1] 2 2
        (Some (mkTensor [1; 1; 2]
                 (fun idx => if nth 2 idx 0 =? 0 then Fin 0 else Fin 1)))
        [0] 0 1.
Proof.
  destruct (attention_masked_contract
              (full [1; 1; 2] (Fin 1)) (full [1; 2; 2] (Fin 1))
              (full [1; 2; 1] (Fin 1))
              (mkTensor [1; 1; 2]
                 (fun idx => if nth 2 idx 0 =? 0 then Fin 0 else Fin 1))
              [1] [1] [1] [1] [1] 1 2 2 1)
    as [o [w [H1 [H2 [_ [H4 _]]]]]];
    [reflexivity | reflexivity | reflexivity | reflexivity | reflexivity
     | reflexivity |].
  exists o, w. split; [exact H1 |]. split; [exact H2 |].
  apply (H4 [0] 0 1); [repeat constructor | lia | lia].
Defined.

Lemma attention_identical_keys_equal_weights_witness :
  exists output weights,
    scaled_dot_product_attention
      (full [1; 1; 2] (Fin 1)) (full [1; 2; 2] (Fin 3))
      (full [1; 2; 1] (Fin 1)) None
    = Ok (output, weights) /\
    data weights ([0] ++ [0; 0]) = data weights ([0] ++ [0; 1]).
Proof.
  destruct (attention_identical_keys_equal_weights
              (full [1; 1; 2] (Fin 1)) (full [1; 2; 2] (Fin 3))
              (full [1; 2; 1] (Fin 1)) None
              [1] [1] [1] [1] [1] 1 2 2 1)
    as [o [w [H1 H2]]];
    [reflexivity | reflexivity | reflexivity | reflexivity | reflexivity
     | exact I |].
  exists o, w. split; [exact H1 |].
  apply (H2 [0] 0 0 1);
    [repeat constructor | lia | lia | lia | reflexivity | reflexivity].
Defined.

Lemma attention_single_unmasked_key_witness :
  exists scores output weights,
    attention_scores (full [1; 1; 2] (Fin 1)) (full [1; 2; 2] (Fin 1))
    = Ok scores /\
    scaled_dot_product_attention
      (full [1; 1; 2] (Fin 1)) (full [1; 2; 2] (Fin 1))
      (mkTensor [1; 2; 1] (fun idx => Fin (INR (nth 1 idx 0))))
      (Some (mkTensor [1; 1; 2]
               (fun idx => if nth 2 idx 0 =? 1 then Fin 1 else Fin 0)))
    = Ok (output, weights) /\
    data weights ([0] ++ [0; 0]) = Fin 0 /\
    data weights ([0] ++ [0; 1]) = Fin 1.
Proof.
  destruct (attention_single_unmasked_key
              (full [1; 1; 2] (Fin 1)) (full [1; 2; 2] (Fin 1))
              (mkTensor [1; 2; 1] (fun idx => Fin (INR (nth 1 idx 0))))
              (mkTensor [1; 1; 2]
                 (fun idx => if nth 2 idx 0 =? 1 then Fin 1 else Fin 0))
              [1] [1] [1] [1] [1] 1 2 2 1)
    as [s [o [w [H1 [H2 [H3 _]]]]]];
    [reflexivity | reflexivity | reflexivity | reflexivity | reflexivity
     | reflexivity |].
  assert (Hb : valid_index [1] [0]) by (repeat constructor).
  assert (E0 : num_eq0 (Fin 0) = true)
    by (cbn; rewrite Rsgn_zero; reflexivity).
  assert (E1 : num_eq0 (Fin 1) = false)
    by (cbn; rewrite (Rsgn_pos 1 Rlt_0_1); reflexivity).
  assert (Hfin : exists r, data s ([0] ++ [0; 1]) = Fin r).
  { destruct (attention_scores_data
                (full [1; 1; 2] (Fin 1)) (full [1; 2; 2] (Fin 1))
                [1] [1] [1] 1 2 2 eq_refl eq_refl eq_refl)
      as [t [Ht [_ Hd]]].
    rewrite H1 in Ht. inversion Ht; subst t.
    rewrite Hd. cbn [num_sum full data num_mul num_add].
    destruct (num_sqrt_float32_pos 2 Nat.lt_0_2) as [r [Hr Er]];
      [reflexivity |].
    rewrite Er, (num_div_Fin_pos _ r Hr). eauto. }
  assert (Hone : forall j, j < 2 ->
            num_eq0 (mask_at
                       (mkTensor [1; 1; 2]
                          (fun idx =>
                             if nth 2 idx 0 =? 1 then Fin 1 else Fin 0))
                       ([0] ++ [0; j])) = negb (j =? 1)).
  { intros j Hj. destruct j as [|[|j]]; [exact E0 | exact E1 | lia]. }
  exists s, o, w. split; [exact H1 |]. split; [exact H2 |].
  split.
  - apply (H3 [0] 0 1 Hb Nat.lt_0_1 Nat.lt_1_2 Hfin Hone 0 Nat.lt_0_2).
  - apply (H3 [0] 0 1 Hb Nat.lt_0_1 Nat.lt_1_2 Hfin Hone 1 Nat.lt_1_2).
Defined.

Lemma attention_mask_without_zeros_witness :
  exists o1 w1 o2 w2,
    scaled_dot_product_attention
      (full [1; 2; 2] (Fin 1)) (full [1; 2; 2] (Fin 1))
      (full [1; 2; 2] (Fin 1)) (Some (full [2; 2] (Fin 1))) = Ok (o1, w1) /\
    scaled_dot_product_attention
      (full [1; 2; 2] (Fin 1)) (full [1; 2; 2] (Fin 1))
      (full [1; 2; 2] (Fin 1)) None = Ok (o2, w2) /\
    data w1 ([0] ++ [1; 0]) = data w2 ([0] ++ [1; 0]).
Proof.
  destruct (attention_mask_without_zeros
              (full [1; 2; 2] (Fin 1)) (full [1; 2; 2] (Fin 1))
              (full [1; 2; 2] (Fin 1)) (full [2; 2] (Fin 1))
              [1] [1] [1] [1] [1] 2 2 2 2)
    as [o1 [w1 [o2 [w2 [H1 [H2 [_ [_ [H3 _]]]]]]]]];
    [reflexivity | reflexivity | reflexivity | reflexivity | reflexivity
     | reflexivity
     | intros idx _; cbn; rewrite (Rsgn_pos 1 Rlt_0_1); reflexivity |].
  exists o1, w1, o2, w2.
  split; [exact H1 |]. split; [exact H2 |].
  apply (H3 [0] 1 0); [repeat constructor | lia | lia].
Defined.

Lemma attention_fully_masked_row_nan_witness :
  exists output weights,
    scaled_dot_product_attention
      (full [1; 2; 2] (Fin 1)) (full [1; 2; 2] (Fin 1))
      (full [1; 2; 2] (Fin 1)) (Some (full [2; 2] (Fin 0)))
    = Ok (output, weights) /\
    data weights ([0] ++ [1; 0]) = NaN.
Proof.
  destruct (attention_fully_masked_row_nan
              (full [1; 2; 2] (Fin 1)) (full [1; 2; 2] (Fin 1))
              (full [1; 2; 2] (Fin 1)) (full [2; 2] (Fin 0))
              [1] [1] [1] [1] [1] 2 2 2 2)
    as [o [w [H1 [H2 _]]]];
    [reflexivity | reflexivity | reflexivity | reflexivity | reflexivity
     | reflexivity |].
  exists o, w. split; [exact H1 |].
  apply (H2 [0] 1); [repeat constructor | lia | | lia].
  intros j _. cbn. rewrite Rsgn_zero. reflexivity.
Defined.

Lemma attention_zero_key_dim_nan_witness :
  exists output weights,
    scaled_dot_product_attention
      (full [1; 2; 0] (Fin 1)) (full [1; 2; 0] (Fin 1))
      (full [1; 2; 2] (Fin 1)) None
    = Ok (output, weights) /\
    data weights ([0] ++ [1; 0]) = NaN.
Proof.
  destruct (attention_zero_key_dim_nan
              (full [1; 2; 0] (Fin 1)) (full [1; 2; 0] (Fin 1))
              (full [1; 2; 2] (Fin 1)) None [1] [1] [1] [1] [1] 2 2 2)
    as [o [w [H1 H2]]];
    [reflexivity | reflexivity | reflexivity | reflexivity | reflexivity
     | exact I |].
  exists o, w. split; [exact H1 |].
  apply (H2 [0] 1 0); [repeat constructor | lia | lia].
Defined.

Lemma attention_vector_query_witness :
  exists output weights,
    scaled_dot_product_attention
      (full [3] (Fin 1)) (full [2; 3] (Fin 1)) (full [2; 4] (Fin 1)) None
    = Ok (output, weights) /\
    shape output = [4] /\ shape weights = [2].
Proof.
  destruct (attention_vector_query
              (full [3] (Fin 1)) (full [2; 3] (Fin 1))
              (full [2; 4] (Fin 1)) 2 3 4)
    as [o [w [H1 [H2 [H3 _]]]]];
    [reflexivity | reflexivity | reflexivity |].
  exists o, w. auto.
Defined.

Lemma attention_mask_broadcasts_scores_witness :
  exists output weights,
    scaled_dot_product_attention
      (full [1; 1; 1] (Fin 1)) (full [1; 1; 1] (Fin 1))
      (full [1; 1; 1] (Fin 1)) (Some (full [1; 2; 1] (Fin 1)))
    = Ok (output, weights) /\
    shape weights = [1] ++ [2; 1] /\
    shape output = [1] ++ [2; 1].
Proof.
  apply (attention_mask_broadcasts_scores
           (full [1; 1; 1] (Fin 1)) (full [1; 1; 1] (Fin 1))
           (full [1; 1; 1] (Fin 1)) (full [1; 2; 1] (Fin 1))
           [1] [1] [1] [1] [1] [1] 1 1 1 1 2 1);
    reflexivity.
Defined.

Lemma init_succeeds_only_if_witness :
  is_ok (SinusoidalPositionalEmbedding_init 2 4 empty_heap) = true /\
  (0 <= 2 /\ (4 = 1 \/ (0 < 4 /\ Z.even 4 = true)))%Z.
Proof.
  split; [reflexivity |].
  apply (init_succeeds_only_if 2 4 empty_heap). reflexivity.
Defined.

Lemma init_d_model_one_witness :
  exists m h',
    SinusoidalPositionalEmbedding_init 3 1 empty_heap = Ok (m, h') /\
    shape (read_view h' (pe m)) = [Z.to_nat 3; 1] /\
    data (read_view h' (pe m)) [2; 0] = num_sin (float32_of_nat 2).
Proof.
  assert (Hinit : exists m h',
            SinusoidalPositionalEmbedding_init 3 1 empty_heap = Ok (m, h'))
    by (do 2 eexists; reflexivity).
  destruct Hinit as [m [h' Hinit]].
  destruct (init_d_model_one 3 empty_heap h' m Hinit) as [H1 H2].
  exists m, h'. split; [exact Hinit |]. split; [exact H1 |].
  apply H2. apply Nat.ltb_lt. reflexivity.
Defined.

Lemma init_allocates_one_storage_witness :
  exists m h',
    SinusoidalPositionalEmbedding_init 2 2 empty_heap = Ok (m, h') /\
    v_storage (pe m) = 0 /\ next_id h' = 1.
Proof.
  assert (Hinit : exists m h',
            SinusoidalPositionalEmbedding_init 2 2 empty_heap = Ok (m, h'))
    by (do 2 eexists; reflexivity).
  destruct Hinit as [m [h' Hinit]].
  destruct (init_allocates_one_storage 2 2 empty_heap h' m Hinit)
    as [H1 [H2 _]].
  exists m, h'. split; [exact Hinit |]. split; [exact H1 | exact H2].
Defined.

Lemma init_twice_independent_witness :
  exists m1 h1 m2 h2,
    SinusoidalPositionalEmbedding_init 2 2 empty_heap = Ok (m1, h1) /\
    SinusoidalPositionalEmbedding_init 3 4 h1 = Ok (m2, h2) /\
    v_storage (pe m1) <> v_storage (pe m2) /\
    data (read_view h2 (pe m1)) [1; 1] = data (read_view h1 (pe m1)) [1; 1].
Proof.
  assert (H1 : exists m1 h1,
            SinusoidalPositionalEmbedding_init 2 2 empty_heap = Ok (m1, h1))
    by (do 2 eexists; reflexivity).
  destruct H1 as [m1 [h1 H1]].
  assert (H2 : exists m2 h2,
            SinusoidalPositionalEmbedding_init 3 4 h1 = Ok (m2, h2)).
  { destruct (init_even 3 4 h1 2) as [h2 [H2 _]];
      [lia | lia | reflexivity |].
    eauto. }
  destruct H2 as [m2 [h2 H2]].
  destruct (init_twice_independent 2 2 3 4 empty_heap h1 h2 m1 m2 H1 H2)
    as [Hne Hsame].
  exists m1, h1, m2, h2.
  split; [exact H1 |]. split; [exact H2 |]. split; [exact Hne |].
  apply Hsame.
Defined.

Lemma positional_table_prefix_witness :
  exists m1 g1 m2 g2,
    SinusoidalPositionalEmbedding_init 2 4 empty_heap = Ok (m1, g1) /\
    SinusoidalPositionalEmbedding_init 5 4 empty_heap = Ok (m2, g2) /\
    data (read_view g1 (pe m1)) [1; 3] = data (read_view g2 (pe m2)) [1; 3].
Proof.
  assert (H1 : exists m1 g1,
            SinusoidalPositionalEmbedding_init 2 4 empty_heap = Ok (m1, g1))
    by (do 2 eexists; reflexivity).
  destruct H1 as [m1 [g1 H1]].
  assert (H2 : exists m2 g2,
            SinusoidalPositionalEmbedding_init 5 4 empty_heap = Ok (m2, g2))
    by (do 2 eexists; reflexivity).
  destruct H2 as [m2 [g2 H2]].
  exists m1, g1, m2, g2. split; [exact H1 |]. split; [exact H2 |].
  apply (positional_table_prefix 2 5 4 empty_heap empty_heap g1 g2 m1 m2
           H1 H2);
    [lia | reflexivity | | |]; apply Nat.ltb_lt; reflexivity.
Defined.

Lemma forward_any_length_witness :
  exists m h' out,
    SinusoidalPositionalEmbedding_init 2 2 empty_heap = Ok (m, h') /\
    forward m (full [1; 5] tt) h' = Ok (out, h') /\
    shape (read_view h' out) = [1; Nat.min 5 (Z.to_nat 2); Z.to_nat 2].
Proof.
  assert (Hinit : exists m h',
            SinusoidalPositionalEmbedding_init 2 2 empty_heap = Ok (m, h'))
    by (do 2 eexists; reflexivity).
  destruct Hinit as [m [h' Hinit]].
  destruct (forward_any_length 2 2 empty_heap h' m (full [1; 5] tt) 5 Hinit)
    with (g := h') as [out [H1 [H2 _]]]; [reflexivity |].
  exists m, h', out. split; [exact Hinit |]. split; [exact H1 | exact H2].
Defined.

Lemma forward_rank_error_witness :
  forward (mkModule (mkView 0 0 [2; 2] [2; 1])) (full [7] tt) empty_heap
  = Err (IndexError "tuple index out of range").
Proof.
  apply (forward_rank_error (mkModule (mkView 0 0 [2; 2] [2; 1]))
           (full [7] tt) empty_heap).
  apply Nat.ltb_lt. reflexivity.
Defined.

Lemma forward_write_leaves_rest_witness :
  exists m h' out g',
    SinusoidalPositionalEmbedding_init 3 2 empty_heap = Ok (m, h') /\
    forward m (full [1; 1] tt) h' = Ok (out, h') /\
    setitem out (scalar (Fin 7)) h' = Ok g' /\
    data (read_view g' (pe m)) [2; 1] = data (read_view h' (pe m)) [2; 1].
Proof.
  assert (Hinit : exists m h',
            SinusoidalPositionalEmbedding_init 3 2 empty_heap = Ok (m, h'))
    by (do 2 eexists; reflexivity).
  destruct Hinit as [m [h' Hinit]].
  assert (Hfwd : exists out,
            forward m (full [1; 1] tt) h' = Ok (out, h')).
  { destruct (forward_clamps 3 2 empty_heap h' m (full [1; 1] tt) 1 Hinit)
      with (g := h') as [out [Hf _]]; [reflexivity |].
    eauto. }
  destruct Hfwd as [out Hfwd].
  exists m, h', out, (write_view h' out (fun _ => Fin 7)).
  split; [exact Hinit |]. split; [exact Hfwd |].
  split; [apply setitem_scalar |].
  destruct (forward_write_leaves_rest 3 2 empty_heap h' h'
              (write_view h' out (fun _ => Fin 7)) m (full [1; 1] tt) 1 out
              (scalar (Fin 7)) Hinit)
    as [Hrows _];
    [reflexivity | exact Hfwd | apply setitem_scalar |].
  apply Hrows; [apply Nat.leb_le | apply Nat.ltb_lt]; reflexivity.
Defined.
